(** * owi2plex: OpenWebif listings to XMLTV

    A shallow embedding of [src/owi2plex.py] and the properties of its
    text heuristics and document builders.

    - Text is [string]; its characters are the code points 0..255, and the
      classes [\d], [\w] and [\s] are those of a str pattern on that
      range.
    - Integers are [Z].  The floats of [getOffset] are whole numbers of
      seconds and quotients of them; [round] is computed on the exact
      quotient.  Time stamps are those that [datetime] holds and prints
      with a year of four digits; the refusal of the others is not
      modelled.
    - An lxml element is a record of tag, attributes, text and children;
      [SubElement] appends a child.  lxml's refusal of a text that is not
      XML-compatible is not modelled.
    - A dict is an association list in insertion order.
    - A raised exception is the left summand of [Py.result].
    - The regular expressions of the source are values of [Re.regex], run
      by a backtracking matcher with the priorities of Python's [re]
      module: alternatives from left to right, greedy repetition, the
      leftmost start first.
    - What the program takes from its host (the html module, the local
      time zone) is a value of [Host.t]; what the OpenWebif server answers
      is a value of [Server].
    - What the program prints is left out, and so is the writing of the
      output file. *)

From Stdlib Require Import Strings.String Strings.Ascii Lists.List.
From Stdlib Require Import ZArith.ZArith Arith.PeanoNat Bool.Bool micromega.Lia.
From Stdlib Require Import Numbers.DecimalString.
Import ListNotations.
Open Scope string_scope.

(* ================================================================== *)
(** * Python values: exceptions, str and int helpers                   *)
(* ================================================================== *)

Module Py.

(** The exceptions the modelled code can raise. *)
Inductive Exn : Type :=
| KeyError (key : string)
| ValueError (arg : string)
| TypeError.

Definition result (A : Type) : Type := (Exn + A)%type.

Definition ret {A : Type} (a : A) : result A := inr a.
Definition raise {A : Type} (e : Exn) : result A := inl e.

Definition bind {A B : Type} (c : result A) (k : A -> result B) : result B :=
  match c with
  | inl e => inl e
  | inr a => k a
  end.

(** Truthiness of [str], of [int] and of an optional object. *)
Definition truthy_str (s : string) : bool := negb (s =? "").
Definition truthy_int (n : Z) : bool := negb (n =? 0)%Z.

Definition newline : ascii := ascii_of_nat 10.

(** [sub in s] for two strings. *)
Fixpoint contains (sub s : string) : bool :=
  prefix sub s ||
  match s with
  | EmptyString => false
  | String _ s' => contains sub s'
  end.

(** [s.replace(old, new)] for a non-empty [old]: every occurrence, left to
    right, without overlap.  [skip] counts the characters of an
    occurrence that are still to be passed over. *)
Fixpoint replace_from (old new : string) (skip : nat) (s : string) : string :=
  match s with
  | EmptyString => EmptyString
  | String c s' =>
      match skip with
      | S k => replace_from old new k s'
      | O => if prefix old s
             then new ++ replace_from old new (String.length old - 1) s'
             else String c (replace_from old new 0 s')
      end
  end.

Definition replace (s old new : string) : string := replace_from old new 0 s.

(** [s.split(sep, maxsplit)] for a one-character separator; [None] is
    Python's default of no limit. *)
Definition may_split (limit : option nat) : bool :=
  match limit with
  | None => true
  | Some n => (0 <? n)%nat
  end.

Fixpoint split (sep : ascii) (limit : option nat) (s : string) : list string :=
  match s with
  | EmptyString => [EmptyString]
  | String c s' =>
      if (c =? sep)%char && may_split limit
      then EmptyString :: split sep (option_map pred limit) s'
      else match split sep limit s' with
           | p :: ps => String c p :: ps
           | [] => [String c EmptyString]
           end
  end.

(** [s[:-1]]. *)
Fixpoint drop_last (s : string) : string :=
  match s with
  | EmptyString => EmptyString
  | String _ EmptyString => EmptyString
  | String c s' => String c (drop_last s')
  end.

(** [str(n)] and ['{}'.format(n)] for an int. *)
Definition str_of_int (n : Z) : string := NilZero.string_of_int (Z.to_int n).

Definition digit_value (c : ascii) : option Z :=
  let n := nat_of_ascii c in
  if ((48 <=? n) && (n <=? 57))%nat then Some (Z.of_nat (n - 48)) else None.

Fixpoint int_digits (acc : Z) (s : string) : option Z :=
  match s with
  | EmptyString => Some acc
  | String c s' =>
      match digit_value c with
      | Some d => int_digits (10 * acc + d) s'
      | None => None
      end
  end.

(** [int(s)] on the strings the program passes to it, runs of decimal
    digits; anything else is reported as [ValueError]. *)
Definition int (s : string) : result Z :=
  match s with
  | EmptyString => raise (ValueError s)
  | _ => match int_digits 0 s with
         | Some n => ret n
         | None => raise (ValueError s)
         end
  end.

(** ['{:+05}'.format(n)]: sign always shown, zero filled after the sign up
    to a total width of five. *)
Fixpoint zeros (n : nat) : string :=
  match n with
  | O => EmptyString
  | S k => String "0" (zeros k)
  end.

Definition format_plus05 (n : Z) : string :=
  let digits := NilZero.string_of_uint (N.to_uint (Z.abs_N n)) in
  (if (n <? 0)%Z then "-" else "+") ++ zeros (4 - String.length digits) ++ digits.

(** [round(num / den)] for [den > 0]: to the nearest integer, a tie going
    to the even one. *)
Definition round_div (num den : Z) : Z :=
  let q := (num / den)%Z in
  let r := (num mod den)%Z in
  if (2 * r <? den)%Z then q
  else if (den <? 2 * r)%Z then (q + 1)%Z
  else if Z.even q then q else (q + 1)%Z.

End Py.

Notation "x <- c ;; k" := (Py.bind c (fun x => k))
  (at level 61, c at next level, right associativity).
Notation "' pat <- c ;; k" := (Py.bind c (fun x => match x with pat => k end))
  (at level 61, pat pattern, c at next level, right associativity).

(* ================================================================== *)
(** * Regular expressions as Python's [re] runs them                   *)
(* ================================================================== *)

Module Re.

(** Members of a bracketed class. *)
Inductive item : Type :=
| IChr (c : ascii)        (* a literal character *)
| IDigit                  (* \d *)
| IWord                   (* \w *)
| ISpace.                 (* \s *)

Inductive regex : Type :=
| Eps
| Bol                               (* ^ *)
| Chr (c : ascii)                   (* a literal character *)
| Dot                               (* . : anything but a newline *)
| Cls (items : list item)           (* [...], and \d \w \s alone *)
| Seq (r1 r2 : regex)
| Alt (r1 r2 : regex)               (* r1|r2, r1 tried first *)
| Star (r : regex)                  (* r*, greedy *)
| Plus (r : regex)                  (* r+, greedy *)
| Grp (name : string) (r : regex).  (* (?P<name>r); (r) is named by its number *)

(** [r?], greedy. *)
Definition Opt (r : regex) : regex := Alt r Eps.

Fixpoint seq (rs : list regex) : regex :=
  match rs with
  | [] => Eps
  | [r] => r
  | r :: rs' => Seq r (seq rs')
  end.

(** A literal run of characters. *)
Fixpoint lit (s : string) : regex :=
  match s with
  | EmptyString => Eps
  | String c EmptyString => Chr c
  | String c s' => Seq (Chr c) (lit s')
  end.

(** [r{n}]. *)
Fixpoint times (n : nat) (r : regex) : regex :=
  match n with
  | O => Eps
  | S O => r
  | S k => Seq r (times k r)
  end.

(** The classes of a str pattern on code points 0..255. *)
Definition between (lo hi : nat) (c : ascii) : bool :=
  let n := nat_of_ascii c in ((lo <=? n) && (n <=? hi))%nat.

Definition is_digit (c : ascii) : bool := between 48 57 c.

Definition is_space (c : ascii) : bool :=
  between 9 13 c || between 28 32 c || between 133 133 c || between 160 160 c.

Definition is_word (c : ascii) : bool :=
  between 48 57 c || between 65 90 c || between 95 95 c || between 97 122 c ||
  between 170 170 c || between 178 179 c || between 181 181 c ||
  between 185 186 c || between 188 190 c || between 192 214 c ||
  between 216 246 c || between 248 255 c.

Definition in_item (i : item) (c : ascii) : bool :=
  match i with
  | IChr a => (a =? c)%char
  | IDigit => is_digit c
  | IWord => is_word c
  | ISpace => is_space c
  end.

Definition in_class (items : list item) (c : ascii) : bool :=
  existsb (fun i => in_item i c) items.

(** The matcher's state: characters consumed so far, the text still
    ahead, and the groups set so far (most recent first). *)
Record mstate : Type := MState {
  idx : nat;
  rest : string;
  groups : list (string * string)
}.

Definition cont : Type := mstate -> option mstate.

(** Consume one character satisfying [p]. *)
Definition step (p : ascii -> bool) (k : cont) (st : mstate) : option mstate :=
  match rest st with
  | EmptyString => None
  | String c s' => if p c then k (MState (S (idx st)) s' (groups st)) else None
  end.

Fixpoint take (n : nat) (s : string) : string :=
  match n, s with
  | S k, String c s' => String c (take k s')
  | _, _ => EmptyString
  end.

(** Close group [name], opened at [st] and ending at [st']. *)
Definition set_group (name : string) (st st' : mstate) : mstate :=
  MState (idx st') (rest st')
         ((name, take (idx st' - idx st) (rest st)) :: groups st').

(** Greedy iteration of [body]: another round first, the continuation when
    no further round leads to success.  A round must consume text; the
    rounds of the patterns of the program always do.  [n] bounds the
    rounds; the callers pass the length of the text ahead, which is
    enough. *)
Fixpoint loop (body : cont -> cont) (k : cont) (n : nat) (st : mstate)
  : option mstate :=
  match n with
  | O => k st
  | S n' =>
      match body (fun st' => if (idx st <? idx st')%nat then loop body k n' st'
                             else None) st with
      | Some res => Some res
      | None => k st
      end
  end.

(** [m r k st]: match [r] at [st] and hand the state after it to [k];
    [None] makes the matcher back up to the latest choice. *)
Fixpoint m (r : regex) (k : cont) (st : mstate) {struct r} : option mstate :=
  match r with
  | Eps => k st
  | Bol => if (idx st =? 0)%nat then k st else None
  | Chr c => step (Ascii.eqb c) k st
  | Dot => step (fun a => negb (a =? Py.newline)%char) k st
  | Cls items => step (in_class items) k st
  | Seq r1 r2 => m r1 (m r2 k) st
  | Alt r1 r2 =>
      match m r1 k st with
      | Some res => Some res
      | None => m r2 k st
      end
  | Star r1 => loop (m r1) k (String.length (rest st)) st
  | Plus r1 => m r1 (fun st' => loop (m r1) k (String.length (rest st')) st') st
  | Grp name r1 => m r1 (fun st' => k (set_group name st st')) st
  end.

(** Names of the groups of a pattern, in the order they open. *)
Fixpoint group_names (r : regex) : list string :=
  match r with
  | Seq r1 r2 | Alt r1 r2 => (group_names r1 ++ group_names r2)%list
  | Star r1 | Plus r1 => group_names r1
  | Grp name r1 => name :: group_names r1
  | _ => []
  end.

(** A match object. *)
Record Match : Type := MkMatch {
  m_start : nat;
  m_end : nat;
  m_groups : list (string * string);
  m_names : list string
}.

Fixpoint lookup (name : string) (gs : list (string * string)) : option string :=
  match gs with
  | [] => None
  | (n, v) :: gs' => if (n =? name) then Some v else lookup name gs'
  end.

(** [match.group(name)]: [None] for a group that took no part. *)
Definition group (mt : Match) (name : string) : option string :=
  lookup name (m_groups mt).

(** [match.groupdict()], as its list of items. *)
Definition groupdict (mt : Match) : list (string * option string) :=
  map (fun n => (n, group mt n)) (m_names mt).

Definition match_at (r : regex) (p : nat) (s : string) : option Match :=
  match m r Some (MState p s []) with
  | Some st => Some (MkMatch p (idx st) (groups st) (group_names r))
  | None => None
  end.

(** [re.search(r, text)] from position [p], [s] being the text ahead:
    the first position where [r] matches. *)
Fixpoint search_from (r : regex) (p : nat) (s : string) : option Match :=
  match match_at r p s with
  | Some mt => Some mt
  | None =>
      match s with
      | EmptyString => None
      | String _ s' => search_from r (S p) s'
      end
  end.

Definition search (r : regex) (text : string) : option Match :=
  search_from r 0 text.

(** [re.sub(r, repl, text)] for a replacement without group references:
    matches are replaced left to right without overlap.  [skip] counts the
    characters of the current match still to be passed over.  After an
    empty match the next character is copied; the two patterns the
    program substitutes consume at least an opening bracket or
    parenthesis, so they have no empty match. *)
Fixpoint sub_from (r : regex) (repl : string) (skip p : nat) (s : string)
  {struct s} : string :=
  match skip, s with
  | S k, String _ s' => sub_from r repl k (S p) s'
  | S _, EmptyString => EmptyString
  | O, _ =>
      match match_at r p s with
      | Some mt =>
          repl ++
          match s with
          | EmptyString => EmptyString
          | String c s' =>
              match m_end mt - p with
              | O => String c (sub_from r repl 0 (S p) s')
              | S k => sub_from r repl k (S p) s'
              end
          end
      | None =>
          match s with
          | EmptyString => EmptyString
          | String c s' => String c (sub_from r repl 0 (S p) s')
          end
      end
  end.

Definition sub (r : regex) (repl text : string) : string :=
  sub_from r repl 0 0 text.

End Re.

(* ================================================================== *)
(** * lxml.etree elements                                              *)
(* ================================================================== *)

Module Etree.

#[warnings="-register-all"]
Inductive Element : Type := MkElement {
  tag : string;
  attrib : list (string * string);
  text : option string;
  children : list Element
}.

(** [etree.SubElement(parent, ...)] followed by the assignments to the
    new child: the finished child is appended after the existing
    children. *)
Definition SubElement (parent child : Element) : Element :=
  MkElement (tag parent) (attrib parent) (text parent)
            (children parent ++ [child])%list.

Definition has_tag (t : string) (e : Element) : bool := (tag e =? t).

(** [parent.find(t)]: the first child with tag [t]. *)
Definition find (t : string) (parent : Element) : option Element :=
  List.find (has_tag t) (children parent).

(** [parent.findall(t)]: the children with tag [t], in document order. *)
Definition findall (t : string) (parent : Element) : list Element :=
  List.filter (has_tag t) (children parent).

(** A leaf element with its attributes and text. *)
Definition leaf (t : string) (attrs : list (string * string)) (txt : string)
  : Element :=
  MkElement t attrs (Some txt) [].

End Etree.

(* ================================================================== *)
(** * The host: what the program takes from its Python installation    *)
(* ================================================================== *)

Module Host.

(** [html_available]: whether [import html] succeeds.
    [charref_sub]: the entity replacement [html.unescape] applies to a
    text that holds an ampersand.
    [utcoffset]: local time minus UTC, in seconds, at an instant given in
    epoch seconds. *)
Record t : Type := Make {
  html_available : bool;
  charref_sub : string -> string;
  utcoffset : Z -> Z
}.

(** [html.unescape]: a text without ampersand is returned as it is. *)
Definition html_unescape (h : t) (s : string) : string :=
  if Py.contains "&" s then charref_sub h s else s.

Local Open Scope Z_scope.

(** Proleptic Gregorian date of a day count from 1970-01-01. *)
Definition civil_from_days (days : Z) : Z * Z * Z :=
  let z := days + 719468 in
  let era := z / 146097 in
  let doe := z - era * 146097 in
  let yoe := (doe - doe / 1460 + doe / 36524 - doe / 146096) / 365 in
  let doy := doe - (365 * yoe + yoe / 4 - yoe / 100) in
  let mp := (5 * doy + 2) / 153 in
  let d := doy - (153 * mp + 2) / 5 + 1 in
  let mth := if mp <? 10 then mp + 3 else mp - 9 in
  let y := yoe + era * 400 in
  (if mth <=? 2 then y + 1 else y, mth, d).

(** A non-negative number on at least [w] digits. *)
Definition pad (w : nat) (n : Z) : string :=
  let digits := NilZero.string_of_uint (N.to_uint (Z.to_N n)) in
  (Py.zeros (w - String.length digits) ++ digits)%string.

(** [dt.strftime("%Y%m%d%H%M%S")] of a naive datetime, held as the
    seconds of its wall clock since 1970-01-01 00:00:00. *)
Definition strftime (wall : Z) : string :=
  let '(y, mth, d) := civil_from_days (wall / 86400) in
  let secs := wall mod 86400 in
  (pad 4 y ++ pad 2 mth ++ pad 2 d ++
   pad 2 (secs / 3600) ++ pad 2 (secs mod 3600 / 60) ++ pad 2 (secs mod 60))%string.

(** [datetime.fromtimestamp(ts)], as wall-clock seconds. *)
Definition fromtimestamp (h : t) (ts : Z) : Z := ts + utcoffset h ts.

(** A host on UTC with the html module, whose entity replacement leaves
    the text alone; the examples below use it on text without
    ampersand, where every host with the html module agrees with it. *)
Definition utc : t := Make true (fun s => s) (fun _ => 0).

End Host.

(* ================================================================== *)
(** * The program                                                      *)
(* ================================================================== *)

Record Service : Type := MkService {
  pos : option Z;              (* service['pos']: an int or null *)
  servicename : string;
  program : string;
  servicereference : string
}.

Record Event : Type := MkEvent {
  begin_timestamp : Z;
  duration : Z;
  title : string;
  shortdesc : string;
  longdesc : string;
  picon : string
}.

(** A dict in insertion order; its keys are distinct. *)
Definition dict (V : Type) : Type := list (string * V).

Fixpoint dict_get {V : Type} (k : string) (d : dict V) : option V :=
  match d with
  | [] => None
  | (k', v) :: d' => if (k' =? k) then Some v else dict_get k d'
  end.

(** [d[k]]. *)
Definition getitem {V : Type} (d : dict V) (k : string) : Py.result V :=
  match dict_get k d with
  | Some v => Py.ret v
  | None => Py.raise (Py.KeyError k)
  end.

(** A [for] loop whose body may raise. *)
Fixpoint for_each {A S : Type} (body : S -> A -> Py.result S) (l : list A) (s : S)
  : Py.result S :=
  match l with
  | [] => Py.ret s
  | a :: l' => s' <- body s a ;; for_each body l' s'
  end.

Import Etree.

Definition valid_xml_char_ordinal (c : ascii) : bool :=
  let codepoint := N_of_ascii c in
  ((0x20 <=? codepoint) && (codepoint <=? 0xD7FF) ||
   existsb (N.eqb codepoint) [0x9; 0xA; 0xD] ||
   (0xE000 <=? codepoint) && (codepoint <=? 0xFFFD) ||
   (0x10000 <=? codepoint) && (codepoint <=? 0x10FFFF))%N.

Fixpoint keep (p : ascii -> bool) (s : string) : string :=
  match s with
  | EmptyString => EmptyString
  | String c s' => if p c then String c (keep p s') else keep p s'
  end.

(** The [except] branch is the failed import. *)
Definition unescape (h : Host.t) (text : string) : string :=
  if Host.html_available h
  then keep valid_xml_char_ordinal (Host.html_unescape h text)
  else text.

(** The offset is what the source computes from the two readings of the
    clock at [now]; all the floats on the way are whole numbers of seconds
    or quotients that [round] takes to the integer the exact quotient
    rounds to. *)
Definition tzo_of_offset (offset : Z) : string :=
  let hours := Py.round_div offset 3600 in
  let minutes := (offset - hours * 3600)%Z in
  Py.format_plus05 (hours * 100 + Py.round_div minutes 900 * 900 / 60)%Z.

Definition getOffset (h : Host.t) (now : Z) : string :=
  tzo_of_offset (Host.utcoffset h now).

Definition channel_of (h : Host.t) (service : Service) (position : Z)
  (icon : list Element) : Element :=
  MkElement "channel" [("id", program service)] None
    ([leaf "display-name" [] (unescape h (servicename service));
      leaf "display-name" [] (Py.str_of_int position)] ++ icon)%list.

(** The body of the inner loop: the channel of one service. *)
Definition addChannel (h : Host.t) (epg : dict (list Event)) (api_root_url : string)
  (xmltv : Element) (service : Service) : Py.result Element :=
  match pos service with
  | Some position =>
      if Py.truthy_int position then
        events <- getitem epg (program service) ;;
        match events with
        | first_event :: _ =>
            Py.ret (SubElement xmltv (channel_of h service position
              [MkElement "icon" [("src", api_root_url ++ picon first_event)]
                         None []]))
        | [] => Py.ret (SubElement xmltv (channel_of h service position []))
        end
      else Py.ret xmltv
  | None => Py.ret xmltv
  end.

Definition addChannels2XML (h : Host.t) (xmltv : Element)
  (bouquets_services : dict (list Service)) (epg : dict (list Event))
  (api_root_url : string) : Py.result Element :=
  for_each (fun xmltv entry =>
              for_each (addChannel h epg api_root_url) (snd entry) xmltv)
           bouquets_services xmltv.

Import Re.

Definition word_or_space : regex := Cls [IWord; ISpace].
Definition digits : regex := Plus (Cls [IDigit]).
Definition whitespace : regex := Cls [ISpace].

(** The pattern of [categories], written with blanks between its parts:
    [^ \[ (?P<C1>[\w\s]+) [\.\s]* (?P<C2>[\w\s]+)* \]] *)
Definition categories_re : regex :=
  seq [Bol; Chr "["; Grp "C1" (Plus word_or_space);
       Star (Cls [IChr "."; ISpace]);
       Star (Grp "C2" (Plus word_or_space)); Chr "]"].

Definition category (txt : string) : Element :=
  leaf "category" [("lang", "en")] txt.

Definition addCategories2Programme (programme : Element) (event : Event)
  : Element :=
  match search categories_re (shortdesc event) with
  | Some categories =>
      fold_left (fun programme '(_, value) =>
                   match value with
                   | Some c => if Py.truthy_str c
                               then SubElement programme (category c)
                               else programme
                   | None => programme
                   end)
                (groupdict categories) programme
  | None => programme
  end.

(** The pattern of [c4_style], written with blanks between its parts:
    [(?: S (?P<S>\d+) (?:\/|\s)* )?  (?:Ep|E)  \s*  (?P<E>\d+)  (?: \/ (?P<P>\d+) )?] *)
Definition c4_style_re : regex :=
  seq [Opt (seq [Chr "S"; Grp "S" digits; Star (Alt (Chr "/") whitespace)]);
       Alt (lit "Ep") (Chr "E"); Star whitespace; Grp "E" digits;
       Opt (Seq (Chr "/") (Grp "P" digits))].

(** The pattern of [bbc_style]: [^ (?P<E>\d+) \/ (?P<P>\d+) \.] *)
Definition bbc_style_re : regex :=
  seq [Bol; Grp "E" digits; Chr "/"; Grp "P" digits; Chr "."].

(** One of the three assignments to S, E and P:
    ['{}'.format(int(match.group(name)) - 1 if match.group(name) else '')]
    under [if name in group_names], the empty string otherwise. *)
Definition sep_field (mt : Match) (name : string) : Py.result string :=
  if existsb (String.eqb name) (m_names mt) then
    match group mt name with
    | Some g => if Py.truthy_str g
                then n <- Py.int g ;; Py.ret (Py.str_of_int (n - 1))
                else Py.ret ""
    | None => Py.ret ""
    end
  else Py.ret "".

Definition parseSEP (text : string) : Py.result (bool * string) :=
  let c4_style := search c4_style_re text in
  let bbc_style := search bbc_style_re text in
  let '(is_a_match, match_) :=
    match c4_style, bbc_style with
    | Some mt, _ => (true, Some mt)
    | None, Some mt => (true, Some mt)
    | None, None => (false, None)
    end in
  '(s_S, s_E, s_P) <- match match_ with
                      | Some mt =>
                          s_S <- sep_field mt "S" ;;
                          s_E <- sep_field mt "E" ;;
                          s_P <- sep_field mt "P" ;;
                          Py.ret (s_S, s_E, s_P)
                      | None => Py.ret ("", "", "")
                      end ;;
  Py.ret (is_a_match, s_S ++ "." ++ s_E ++ "." ++ s_P).

(** The pattern of [original_air_date]:
    [(\d{2}) [\/|\.|\-] (\d{2}) [\/|\.|\-] (\d{4})] *)
Definition date_separator : regex :=
  Cls [IChr "/"; IChr "|"; IChr "."; IChr "|"; IChr "-"].

Definition original_air_date_re : regex :=
  seq [Grp "1" (times 2 (Cls [IDigit])); date_separator;
       Grp "2" (times 2 (Cls [IDigit])); date_separator;
       Grp "3" (times 4 (Cls [IDigit]))].

(** ['{}'.format(match.group(n))]. *)
Definition format_group (mt : Match) (name : string) : string :=
  match group mt name with
  | Some g => g
  | None => "None"
  end.

Definition episode_num (system value : string) : Element :=
  leaf "episode-num" [("system", system)] value.

(** [x in (a, b, ...)] for the text of an element, which may be [None]. *)
Definition in_tuple (x : option string) (items : list string) : bool :=
  match x with
  | Some s => existsb (String.eqb s) items
  | None => false
  end.

(** The [try] block: [AttributeError] is raised by [.text] of [None] and
    passed over. *)
Definition no_episode_num (existing_category : option Element) : bool :=
  match existing_category with
  | Some c => in_tuple (text c) ["Movie"; "News"]
  | None => false
  end.

Definition addSeriesInfo2Programme (programme : Element) (event : Event)
  : Py.result Element :=
  let original_air_date := search original_air_date_re (shortdesc event) in
  '(match_epnum, epnum) <- parseSEP (shortdesc event) ;;
  let existing_category := find "category" programme in
  if no_episode_num existing_category then Py.ret programme
  else
    let programme :=
      if (match_epnum : bool) then
        let programme := SubElement programme (episode_num "xmltv_ns" epnum) in
        match existing_category with
        | None => SubElement programme (category "Series")
        | Some _ => programme
        end
      else programme in
    let programme :=
      match original_air_date with
      | Some mt =>
          SubElement programme
            (episode_num "original-air-date"
               (format_group mt "3" ++ "-" ++ format_group mt "2" ++ "-" ++
                format_group mt "1"))
      | None => programme
      end in
    Py.ret programme.

(** The credits of a cast list already split in three. *)
Definition credits_of (cast : list string) : Element :=
  MkElement "credits" [] None
    (leaf "director" [] (nth 1 cast "") ::
     map (leaf "actor" [])
         (Py.split Py.newline None (Py.drop_last (nth 2 cast "")))).

(** [existing_category.text in ('Movie')]: the parentheses hold a string, so
    [in] is the substring test, and a text of [None] is a [TypeError]. *)
Definition addMovieCredits (programme : Element) (event : Event)
  : Py.result Element :=
  match find "category" programme with
  | None => Py.ret programme
  | Some existing_category =>
      match text existing_category with
      | None => Py.raise Py.TypeError
      | Some txt =>
          if Py.contains txt "Movie" then
            let cast := Py.split Py.newline (Some 2) (longdesc event) in
            if (2 <? List.length cast)%nat
            then Py.ret (SubElement programme (credits_of cast))
            else Py.ret programme
          else Py.ret programme
      end
  end.

(** The pattern of [subtitle_first_step]: [^ ( \[ .+ \] \s* )] *)
Definition subtitle_first_step_re : regex :=
  seq [Bol; Grp "1" (seq [Chr "["; Plus Dot; Chr "]"; Star whitespace])].

(** The pattern of [subtitle]: [\s* \( [SE] \d+ .* \)] *)
Definition subtitle_re : regex :=
  seq [Star whitespace; Chr "("; Cls [IChr "S"; IChr "E"]; digits; Star Dot;
       Chr ")"].

Definition lang_en : list (string * string) := [("lang", "en")].

(** The body of the loops of [addEvents2XML]: the programme of one event.
    The source attaches the programme to the document first and fills it
    afterwards; an exception on the way ends the run, so the order shows
    in no document. *)
Definition programme_of (h : Host.t) (service_program tzoffset : string)
  (event : Event) : Py.result Element :=
  let start_dt := Host.fromtimestamp h (begin_timestamp event) in
  let start_dt_str := Host.strftime start_dt ++ " " ++ tzoffset in
  let end_dt := (start_dt + duration event * 60)%Z in
  let end_dt_str := Host.strftime end_dt ++ " " ++ tzoffset in
  let programme :=
    MkElement "programme"
      [("channel", service_program); ("start", start_dt_str);
       ("stop", end_dt_str)] None [] in
  let programme :=
    SubElement programme
      (leaf "length" [("units", "minutes")] (Py.str_of_int (duration event))) in
  let programme :=
    if (longdesc event =? "") then
      SubElement programme (leaf "desc" lang_en (unescape h (shortdesc event)))
    else
      let programme :=
        SubElement programme (leaf "desc" lang_en (unescape h (longdesc event))) in
      let subtitle_first_step := sub subtitle_first_step_re "" (shortdesc event) in
      let subtitle := sub subtitle_re "" subtitle_first_step in
      if (0 <? String.length subtitle)%nat
      then SubElement programme (leaf "sub-title" lang_en (unescape h subtitle))
      else programme in
  let title := unescape h (title event) in
  let '(programme, title) :=
    if Py.contains "New: " title
    then (SubElement programme (MkElement "new" [] None []),
          Py.replace title "New: " "")
    else (programme, title) in
  let programme := SubElement programme (leaf "title" lang_en title) in
  let programme := addCategories2Programme programme event in
  programme <- addSeriesInfo2Programme programme event ;;
  addMovieCredits programme event.

Definition addEvents2XML (h : Host.t) (xmltv : Element) (epg : dict (list Event))
  (tzoffset : string) : Py.result Element :=
  for_each (fun xmltv '(service_program, events) =>
    for_each (fun xmltv event =>
      programme <- programme_of h service_program tzoffset event ;;
      Py.ret (SubElement xmltv programme)) events xmltv) epg xmltv.

(* ================================================================== *)
(** * The program: retrieval and the whole run                         *)
(* ================================================================== *)

(** ['{}'.format(x)] and the truth value of an option that may be [None]. *)
Definition format_option (x : option string) : string :=
  match x with
  | Some s => s
  | None => "None"
  end.

Definition truthy_option (x : option string) : bool :=
  match x with
  | Some s => Py.truthy_str s
  | None => false
  end.

Definition getAPIRoot (username password : option string) (host : string)
  (port : Z) : string :=
  if truthy_option username
  then "http://" ++ format_option username ++ ":" ++ format_option password ++
       "@" ++ host ++ ":" ++ Py.str_of_int port
  else "http://" ++ host ++ ":" ++ Py.str_of_int port.

(** [d[k] = v]: the value of an existing key is replaced where it stands, a
    new key goes to the end. *)
Fixpoint dict_set {V : Type} (k : string) (v : V) (d : dict V) : dict V :=
  match d with
  | [] => [(k, v)]
  | (k', v') :: d' => if (k' =? k) then (k, v) :: d' else (k', v') :: dict_set k v d'
  end.

(** What the server answers: [requests.get(url).json()[...]] for the three
    kinds of request, each of which may raise.  A bouquet is the pair of
    its service reference, [b[0]], and its name, [b[1]]. *)
Record Server : Type := MkServer {
  get_bouquets : string -> Py.result (list (string * string));
  get_services : string -> Py.result (list Service);
  get_events : string -> Py.result (list Event)
}.

(** [b[1] == bouquet or not bouquet]. *)
Definition selected (bouquet : option string) (b : string * string) : bool :=
  match bouquet with
  | Some name => (snd b =? name)
  | None => false
  end || negb (truthy_option bouquet).

Definition getBouquets (server : Server) (bouquet : option string)
  (api_root_url : string) : Py.result (dict string) :=
  let url := api_root_url ++ "/api/bouquets" in
  bouquets <- get_bouquets server url ;;
  Py.ret (fold_left (fun result b =>
                       if selected bouquet b
                       then dict_set (snd b) (fst b) result
                       else result)
                    bouquets []).

Definition getBouquetsServices (server : Server) (bouquets : dict string)
  (api_root_url : string) : Py.result (dict (list Service)) :=
  for_each (fun services entry =>
              let url := api_root_url ++ "/api/getservices?sRef=" ++ snd entry in
              found <- get_services server url ;;
              Py.ret (dict_set (fst entry) found services))
           bouquets [].

(** The body of the inner loop of [getEPGs]. *)
Definition getEPG (server : Server) (api_root_url : string)
  (epg : dict (list Event)) (service : Service) : Py.result (dict (list Event)) :=
  match pos service with
  | Some position =>
      if Py.truthy_int position then
        let url := api_root_url ++ "/api/epgservice?sRef=" ++
                   servicereference service in
        events <- get_events server url ;;
        Py.ret (dict_set (program service) events epg)
      else Py.ret epg
  | None => Py.ret epg
  end.

Definition getEPGs (server : Server) (bouquets_services : dict (list Service))
  (api_root_url : string) : Py.result (dict (list Event)) :=
  for_each (fun epg entry => for_each (getEPG server api_root_url) (snd entry) epg)
           bouquets_services [].

(** [dt.strftime("%Y-%m-%d %H:%M:%S")]. *)
Definition strftime_date (wall : Z) : string :=
  let '(y, mth, d) := Host.civil_from_days (wall / 86400)%Z in
  let secs := (wall mod 86400)%Z in
  Host.pad 4 y ++ "-" ++ Host.pad 2 mth ++ "-" ++ Host.pad 2 d ++ " " ++
  Host.pad 2 (secs / 3600)%Z ++ ":" ++ Host.pad 2 (secs mod 3600 / 60)%Z ++ ":" ++
  Host.pad 2 (secs mod 60)%Z.

Definition tv_root (h : Host.t) (now : Z) : Element :=
  MkElement "tv"
    [("generator-info-url", "https://github.com/cvarelaruiz");
     ("generator-info-name", "OpenWebIf 2 Plex XMLTV");
     ("date", strftime_date (Host.fromtimestamp h now))] None [].

(** [tostring] is [etree.tostring(_, pretty_print=True)], lxml's
    serializer; [now] is the clock when the root is made. *)
Definition generateXMLTV (h : Host.t) (now : Z) (tostring : Element -> string)
  (bouquets_services : dict (list Service)) (epg : dict (list Event))
  (api_root_url tzoffset : string) : Py.result string :=
  let xmltv := tv_root h now in
  xmltv <- addChannels2XML h xmltv bouquets_services epg api_root_url ;;
  xmltv <- addEvents2XML h xmltv epg tzoffset ;;
  Py.ret (tostring xmltv).

(** The run, up to the payload that is written to the output file; [None]
    is the run that only reports the version.  [now_offset] and [now_date]
    are the two readings of the clock. *)
Definition main (h : Host.t) (server : Server) (now_offset now_date : Z)
  (tostring : Element -> string) (bouquet username password : option string)
  (host : string) (port : Z) (version : bool) : Py.result (option string) :=
  if version then Py.ret None
  else
    let api_root_url := getAPIRoot username password host port in
    bouquets <- getBouquets server bouquet api_root_url ;;
    bouquets_services <- getBouquetsServices server bouquets api_root_url ;;
    epg <- getEPGs server bouquets_services api_root_url ;;
    let tzoffset := getOffset h now_offset in
    xmltv <- generateXMLTV h now_date tostring bouquets_services epg
                           api_root_url tzoffset ;;
    Py.ret (Some xmltv).


(* ================================================================== *)
(** * Vocabulary of the statements                                     *)
(* ================================================================== *)

Fixpoint all_digits (s : string) : bool :=
  match s with
  | EmptyString => true
  | String c s' => is_digit c && all_digits s'
  end.

(** A non-empty run of decimal digits: what [\d+] can capture. *)
Definition digit_run (s : string) : bool := negb (s =? "") && all_digits s.

Definition digit_groups (gs : list (string * string)) : Prop :=
  Forall (fun nv => digit_run (snd nv) = true) gs.

(** Every group of the pattern is [(\d+)]. *)
Fixpoint digit_grouped (r : regex) : Prop :=
  match r with
  | Seq r1 r2 | Alt r1 r2 => digit_grouped r1 /\ digit_grouped r2
  | Star r1 | Plus r1 => digit_grouped r1
  | Grp _ r1 => r1 = digits
  | _ => True
  end.

(** A rendered field against the group it comes from: empty for a group
    that took no part, the captured number less one otherwise. *)
Definition zero_indexed (captured : option string) (field : string) : Prop :=
  match captured with
  | None => field = ""
  | Some d => exists n, Py.int d = inr n /\ field = Py.str_of_int (n - 1)
  end.

Fixpoint no_char (c : ascii) (s : string) : bool :=
  match s with
  | EmptyString => true
  | String a s' => negb (a =? c)%char && no_char c s'
  end.

(** The texts of the category children, in document order. *)
Definition categories_of (programme : Element) : list (option string) :=
  map text (findall "category" programme).

Definition carries_category (programme : Element) (c : string) : Prop :=
  In (Some c) (categories_of programme).

(** The annotator returns and the episode-num children are what they
    were. *)
Definition keeps_episode_nums (programme : Element) (event : Event) : Prop :=
  exists programme',
    addSeriesInfo2Programme programme event = inr programme' /\
    findall "episode-num" programme' = findall "episode-num" programme.



Definition empty_programme : Element := MkElement "programme" [] None [].

(** A line break, to write texts of several lines. *)
Definition nl : string := String Py.newline "".

(** [parent] with the elements of [l] appended to its children. *)
Definition append_children (parent : Element) (l : list Element) : Element :=
  MkElement (tag parent) (attrib parent) (text parent) (children parent ++ l)%list.

(** The values of the named groups of a match, in the order the groups
    open, and those of them that are non-empty texts. *)
Definition named_captures (mt : Match) : list (option string) :=
  map snd (groupdict mt).

Definition nonempty (v : option string) : list string :=
  match v with
  | Some c => if Py.truthy_str c then [c] else []
  | None => []
  end.

Definition extract_categories (shortDescription : string) : list string :=
  match search categories_re shortDescription with
  | Some mt => flat_map nonempty (named_captures mt)
  | None => []
  end.

(** The children the three annotators add. *)
Definition is_annotation (e : Element) : Prop :=
  In (tag e) ["category"; "episode-num"; "credits"].

(** A category child has a text. *)
Definition texted_category (e : Element) : Prop :=
  tag e = "category" -> text e <> None.

(** The short description after the two substitutions of the sub-title. *)
Definition stripped_subtitle (event : Event) : string :=
  sub subtitle_re "" (sub subtitle_first_step_re "" (shortdesc event)).

(** [s] without [pre] at its start, [s] itself when it does not start
    with [pre]. *)
Definition strip_prefix (pre s : string) : string :=
  if prefix pre s
  then substring (String.length pre) (String.length s - String.length pre) s
  else s.

(** Follows the specification's words, not the source: the offset to the
    nearest quarter of an hour, as a sign, two digits of hours and two of
    minutes. *)
Definition hhmm_of_offset (offset : Z) : string :=
  let total := (Py.round_div (Z.abs offset) 900 * 15)%Z in
  (if (offset <? 0)%Z then "-" else "+") ++
  Host.pad 2 (total / 60)%Z ++ Host.pad 2 (total mod 60)%Z.

(** A service the channel builder looks up has its events in [epg]. *)
Definition listed (epg : dict (list Event)) (service : Service) : bool :=
  match pos service with
  | Some position =>
      if Py.truthy_int position
      then match dict_get (program service) epg with
           | Some _ => true
           | None => false
           end
      else true
  | None => true
  end.

Definition all_listed (bouquets_services : dict (list Service))
  (epg : dict (list Event)) : bool :=
  forallb (fun entry => forallb (listed epg) (snd entry)) bouquets_services.

Definition tv : Element := MkElement "tv" [] None [].


(** [st'] lies ahead of [st] in the same text. *)
Definition reach (st st' : mstate) : Prop :=
  (idx st <= idx st')%nat /\
  (idx st' + String.length (rest st') = idx st + String.length (rest st))%nat.

(** Two continuations agree on the states ahead of [st]. *)
Definition agree_from (st : mstate) (k k' : cont) : Prop :=
  forall st', reach st st' -> k st' = k' st'.


(** Every match of the pattern consumes at least one character. *)
Fixpoint consuming (r : regex) : Prop :=
  match r with
  | Chr _ | Dot | Cls _ => True
  | Seq r1 r2 => consuming r1 \/ consuming r2
  | Alt r1 r2 => consuming r1 /\ consuming r2
  | Plus r1 | Grp _ r1 => consuming r1
  | Eps | Bol | Star _ => False
  end.


(** Every repeated part of the pattern consumes at least one character in
    each round. *)
Fixpoint rounds_consume (r : regex) : Prop :=
  match r with
  | Star r1 | Plus r1 => consuming r1 /\ rounds_consume r1
  | Seq r1 r2 | Alt r1 r2 => rounds_consume r1 /\ rounds_consume r2
  | Grp _ r1 => rounds_consume r1
  | _ => True
  end.


(** The keys of a dict, in insertion order. *)
Definition keys {V : Type} (d : dict V) : list string := map fst d.

(** The service reference of the last bouquet called [name] in the
    server's answer. *)
Fixpoint last_ref (name : string) (bouquets : list (string * string))
  : option string :=
  match bouquets with
  | [] => None
  | b :: bouquets' =>
      match last_ref name bouquets' with
      | Some ref => Some ref
      | None => if (snd b =? name) then Some (fst b) else None
      end
  end.

(** [if service['pos']]. *)
Definition positioned (service : Service) : bool :=
  match pos service with
  | Some position => Py.truthy_int position
  | None => false
  end.

(** All the services of the bouquets, in order. *)
Definition services_of (bouquets_services : dict (list Service)) : list Service :=
  flat_map snd bouquets_services.




(** [c] is the channel the builder makes for [service]: its id, its two
    display names, and the icon of the first event when there is one. *)
Definition channel_for (h : Host.t) (epg : dict (list Event)) (api_root_url : string)
  (service : Service) (c : Element) : Prop :=
  exists position events,
    pos service = Some position /\
    dict_get (program service) epg = Some events /\
    c = channel_of h service position
          match events with
          | first_event :: _ =>
              [MkElement "icon" [("src", api_root_url ++ picon first_event)] None []]
          | [] => []
          end.



(** Some, or every, character of a text satisfies [p]. *)
Fixpoint has_char (p : ascii -> bool) (s : string) : bool :=
  match s with
  | EmptyString => false
  | String c s' => p c || has_char p s'
  end.

Fixpoint all_chars (p : ascii -> bool) (s : string) : bool :=
  match s with
  | EmptyString => true
  | String c s' => p c && all_chars p s'
  end.

(** Every match of the pattern consumes a character that satisfies [p]. *)
Fixpoint needs (p : ascii -> bool) (r : regex) : Prop :=
  match r with
  | Chr c => p c = true
  | Cls items => forall c, in_class items c = true -> p c = true
  | Seq r1 r2 => needs p r1 \/ needs p r2
  | Alt r1 r2 => needs p r1 /\ needs p r2
  | Plus r1 | Grp _ r1 => needs p r1
  | Eps | Bol | Dot | Star _ => False
  end.

(** A non-empty text made of characters of the class: what [[...]+] can
    capture. *)
Definition class_run (items : list item) (s : string) : bool :=
  negb (s =? "") && all_chars (in_class items) s.

Definition class_groups (items : list item) (gs : list (string * string)) : Prop :=
  Forall (fun nv => class_run items (snd nv) = true) gs.

(** Every group of the pattern is [([...]+)] on the class. *)
Fixpoint class_grouped (items : list item) (r : regex) : Prop :=
  match r with
  | Seq r1 r2 | Alt r1 r2 => class_grouped items r1 /\ class_grouped items r2
  | Star r1 | Plus r1 => class_grouped items r1
  | Grp _ r1 => r1 = Plus (Cls items)
  | _ => True
  end.


(** How many times a character occurs in a text. *)
Fixpoint count_char (c : ascii) (s : string) : nat :=
  match s with
  | EmptyString => O
  | String a s' => (if (a =? c)%char then 1 else 0) + count_char c s'
  end.

(** Two servers answer alike under the API root: the list of bouquets,
    the services of every reference, the events of every reference. *)
Definition same_answers (root : string) (s1 s2 : Server) : Prop :=
  get_bouquets s1 (root ++ "/api/bouquets") =
    get_bouquets s2 (root ++ "/api/bouquets") /\
  (forall ref, get_services s1 (root ++ "/api/getservices?sRef=" ++ ref) =
               get_services s2 (root ++ "/api/getservices?sRef=" ++ ref)) /\
  (forall ref, get_events s1 (root ++ "/api/epgservice?sRef=" ++ ref) =
               get_events s2 (root ++ "/api/epgservice?sRef=" ++ ref)).

(** The quarters of an hour, counted from UTC, that [getOffset] renders as
    hours and minutes: those within a quarter of a whole hour, and the half
    hour after an even hour. *)
Definition rendered_as_hours_and_minutes (quarters : Z) : bool :=
  ((Z.abs quarters mod 4 <=? 1) || (Z.abs quarters mod 8 =? 2))%Z.

(** The integers from [lo], [n] of them. *)
Definition z_range (lo : Z) (n : nat) : list Z :=
  map (fun i => (lo + Z.of_nat i)%Z) (List.seq 0 n).


(** The tags of the children a programme gets before its annotations. *)
Definition leading_tags (h : Host.t) (event : Event) : list string :=
  ("length" :: "desc" ::
   (if (longdesc event =? "") || (stripped_subtitle event =? "")
    then [] else ["sub-title"]) ++
   (if Py.contains "New: " (unescape h (title event)) then ["new"] else []) ++
   ["title"])%list.

(* ================================================================== *)
(** * The matcher keeps digit captures                                 *)
(* ================================================================== *)

Lemma step_inv (p : ascii -> bool) (k : cont) (st res : mstate) :
  step p k st = Some res ->
  exists c s', rest st = String c s' /\ p c = true /\
               k (MState (S (idx st)) s' (groups st)) = Some res.
Proof.
  unfold step. destruct (rest st) as [|c s']; [discriminate|].
  destruct (p c) eqn:Hp; [|discriminate].
  intros Hk. exists c, s'. auto.
Qed.

Lemma loop_inv (I : mstate -> Prop) (body : cont -> cont) :
  (forall k st res, body k st = Some res -> I st ->
                    exists st', I st' /\ k st' = Some res) ->
  forall n k st res, loop body k n st = Some res -> I st ->
                     exists st', I st' /\ k st' = Some res.
Proof.
  intros Hbody n. induction n as [|n IH]; intros k st res; simpl.
  - intros Hk Hst. exists st. auto.
  - destruct (body _ st) as [r0|] eqn:Hb.
    + intros Heq Hst. injection Heq as ->.
      destruct (Hbody _ _ _ Hb Hst) as (st' & Hst' & Hk).
      destruct (idx st <? idx st')%nat; [|discriminate].
      eapply IH; eauto.
    + intros Hk Hst. exists st. auto.
Qed.

Lemma loop_step_run (p : ascii -> bool) (k : cont) (res : mstate) :
  forall n st, loop (step p) k n st = Some res ->
  exists d s', rest st = d ++ s' /\
               (forall c, no_char c d = false -> p c = true) /\
               k (MState (idx st + String.length d) s' (groups st)) = Some res.
Proof.
  induction n as [|n IH]; intros st; simpl.
  - intros Hk. exists "", (rest st). simpl. rewrite Nat.add_0_r.
    destruct st; simpl in *. repeat split; auto. discriminate.
  - destruct (step p _ st) as [r0|] eqn:Hb.
    + intros Heq. injection Heq as ->.
      apply step_inv in Hb. destruct Hb as (c & s1 & Hr & Hp & Hk).
      simpl in Hk. rewrite (proj2 (Nat.ltb_lt _ _) (Nat.lt_succ_diag_r _)) in Hk.
      apply IH in Hk. destruct Hk as (d & s' & Hr' & Hd & Hk). simpl in *.
      exists (String c d), s'. simpl. rewrite Hr, Hr'. repeat split; auto.
      * intros a. destruct (c =? a)%char eqn:Hca; simpl.
        -- apply Ascii.eqb_eq in Hca. subst a. auto.
        -- apply Hd.
      * rewrite <- plus_n_Sm. exact Hk.
    + intros Hk. exists "", (rest st). simpl. rewrite Nat.add_0_r.
      destruct st; simpl in *. repeat split; auto. discriminate.
Qed.

Lemma all_digits_no_char (d : string) :
  (forall c, no_char c d = false -> in_class [IDigit] c = true) ->
  all_digits d = true.
Proof.
  induction d as [|a d IH]; simpl; intros H; [reflexivity|].
  apply andb_true_iff. split.
  - specialize (H a). rewrite Ascii.eqb_refl in H. simpl in H.
    specialize (H eq_refl). rewrite orb_false_r in H. exact H.
  - apply IH. intros c Hc. apply H. rewrite Hc. apply andb_false_r.
Qed.

(** What [\d+] hands to its continuation: a digit run has been consumed
    and no group has changed. *)
Lemma digits_consume (k : cont) (st res : mstate) :
  m digits k st = Some res ->
  exists d s', digit_run d = true /\ rest st = d ++ s' /\
               k (MState (idx st + String.length d) s' (groups st)) = Some res.
Proof.
  unfold digits. simpl. intros H.
  apply step_inv in H. destruct H as (c & s1 & Hr & Hp & Hk). simpl in Hk.
  apply loop_step_run in Hk. destruct Hk as (d & s' & Hr' & Hd & Hk).
  simpl in *. exists (String c d), s'. repeat split.
  - unfold digit_run. simpl. rewrite orb_false_r in Hp.
    unfold in_class in Hp. simpl in Hp. rewrite Hp. simpl.
    apply all_digits_no_char. exact Hd.
  - simpl. rewrite Hr, Hr'. reflexivity.
  - simpl. rewrite <- plus_n_Sm. exact Hk.
Qed.

Lemma take_app (d s : string) : take (String.length d) (d ++ s) = d.
Proof.
  induction d as [|c d IH]; simpl.
  - destruct s; reflexivity.
  - rewrite IH. reflexivity.
Qed.

Lemma m_digit_groups (r : regex) :
  digit_grouped r ->
  forall k st res, m r k st = Some res -> digit_groups (groups st) ->
  exists st', digit_groups (groups st') /\ k st' = Some res.
Proof.
  induction r as [| |c| |items|r1 IH1 r2 IH2|r1 IH1 r2 IH2|r1 IH1|r1 IH1|name r1 _];
    simpl; intros Hg k st res Hm Hst.
  - exists st. split; assumption.
  - destruct (idx st =? 0)%nat; [|discriminate]. exists st. split; assumption.
  - apply step_inv in Hm. destruct Hm as (a & s' & _ & _ & Hk).
    eexists. split; [|exact Hk]. exact Hst.
  - apply step_inv in Hm. destruct Hm as (a & s' & _ & _ & Hk).
    eexists. split; [|exact Hk]. exact Hst.
  - apply step_inv in Hm. destruct Hm as (a & s' & _ & _ & Hk).
    eexists. split; [|exact Hk]. exact Hst.
  - destruct Hg as [Hg1 Hg2].
    destruct (IH1 Hg1 _ _ _ Hm Hst) as (st1 & Hst1 & Hk1).
    exact (IH2 Hg2 _ _ _ Hk1 Hst1).
  - destruct Hg as [Hg1 Hg2].
    destruct (m r1 k st) as [r0|] eqn:H1.
    + injection Hm as ->. exact (IH1 Hg1 _ _ _ H1 Hst).
    + exact (IH2 Hg2 _ _ _ Hm Hst).
  - exact (loop_inv (fun s => digit_groups (groups s)) (m r1) (IH1 Hg)
             _ _ _ _ Hm Hst).
  - destruct (IH1 Hg _ _ _ Hm Hst) as (st1 & Hst1 & Hk1).
    exact (loop_inv (fun s => digit_groups (groups s)) (m r1) (IH1 Hg)
             _ _ _ _ Hk1 Hst1).
  - subst r1. apply digits_consume in Hm.
    destruct Hm as (d & s' & Hd & Hr & Hk).
    eexists. split; [|exact Hk]. unfold set_group. simpl.
    constructor; [|exact Hst]. simpl.
    replace (idx st + String.length d - idx st)%nat with (String.length d) by lia.
    rewrite Hr, take_app. exact Hd.
Qed.

Lemma search_from_at (r : regex) (s : string) :
  forall p mt, search_from r p s = Some mt ->
  exists p' s', match_at r p' s' = Some mt.
Proof.
  induction s as [|c s IH]; intros p mt; simpl.
  - destruct (match_at r p "") eqn:H; [|discriminate].
    intros Heq. injection Heq as ->. eauto.
  - destruct (match_at r p (String c s)) eqn:H.
    + intros Heq. injection Heq as ->. eauto.
    + apply IH.
Qed.

Lemma search_names (r : regex) (text : string) (mt : Match) :
  search r text = Some mt -> m_names mt = group_names r.
Proof.
  intros H. apply search_from_at in H. destruct H as (p & s & H).
  unfold match_at in H. destruct (m r Some _); [|discriminate].
  injection H as <-. reflexivity.
Qed.

Lemma search_digit_groups (r : regex) (text : string) (mt : Match) :
  digit_grouped r -> search r text = Some mt -> digit_groups (m_groups mt).
Proof.
  intros Hg H. apply search_from_at in H. destruct H as (p & s & H).
  unfold match_at in H. destruct (m r Some _) as [st|] eqn:Hm; [|discriminate].
  injection H as <-. simpl.
  destruct (m_digit_groups r Hg _ _ _ Hm) as (st' & Hst' & Heq).
  - constructor.
  - injection Heq as ->. exact Hst'.
Qed.

(* ================================================================== *)
(** * The bound on the rounds of a repetition is never reached         *)
(* ================================================================== *)

Lemma reach_refl (st : mstate) : reach st st.
Proof. split; lia. Qed.

Lemma reach_trans (a b c : mstate) : reach a b -> reach b c -> reach a c.
Proof. unfold reach. intros [H1 H2] [H3 H4]. split; lia. Qed.

Lemma reach_step (st : mstate) (c : ascii) (s' : string) :
  rest st = String c s' -> reach st (MState (S (idx st)) s' (groups st)).
Proof. unfold reach. intros ->. simpl. split; lia. Qed.

Lemma reach_set_group (name : string) (st0 st st' : mstate) :
  reach st0 st' -> reach st0 (set_group name st st').
Proof. unfold reach, set_group. simpl. auto. Qed.

Lemma step_ext (p : ascii -> bool) (k k' : cont) (st : mstate) :
  agree_from st k k' -> step p k st = step p k' st.
Proof.
  intros H. unfold step. destruct (rest st) as [|c s'] eqn:Hr; [reflexivity|].
  destruct (p c); [|reflexivity]. apply H. exact (reach_step st c s' Hr).
Qed.

Lemma loop_ext (body : cont -> cont) :
  (forall k k' st, agree_from st k k' -> body k st = body k' st) ->
  forall n k k' st, agree_from st k k' -> loop body k n st = loop body k' n st.
Proof.
  intros Hbody n. induction n as [|n IH]; intros k k' st H; simpl.
  - apply H, reach_refl.
  - rewrite (H st (reach_refl st)).
    rewrite (Hbody _ (fun st' => if (idx st <? idx st')%nat
                                 then loop body k' n st' else None) st);
      [reflexivity|].
    intros st' Hst'. destruct (idx st <? idx st')%nat; [|reflexivity].
    apply IH. intros st'' Hst''. apply H. eapply reach_trans; eassumption.
Qed.

(** The matcher consults its continuation only on states ahead. *)
Lemma m_ext (r : regex) :
  forall k k' st, agree_from st k k' -> m r k st = m r k' st.
Proof.
  induction r as [| |c| |items|r1 IH1 r2 IH2|r1 IH1 r2 IH2|r1 IH1|r1 IH1|name r1 IH1];
    intros k k' st H; simpl.
  - apply H, reach_refl.
  - destruct (idx st =? 0)%nat; [apply H, reach_refl|reflexivity].
  - apply step_ext, H.
  - apply step_ext, H.
  - apply step_ext, H.
  - apply IH1. intros st1 H1. apply IH2. intros st2 H2.
    apply H. eapply reach_trans; eassumption.
  - rewrite (IH1 k k' st H), (IH2 k k' st H). reflexivity.
  - apply loop_ext; assumption.
  - apply IH1. intros st1 H1. apply loop_ext; [exact IH1|].
    intros st2 H2. apply H. eapply reach_trans; eassumption.
  - apply IH1. intros st1 H1. apply H. apply reach_set_group. exact H1.
Qed.

Lemma loop_dead (body : cont -> cont) :
  (forall k k' st, agree_from st k k' -> body k st = body k' st) ->
  (forall st, body (fun _ => None) st = None) ->
  forall n st, loop body (fun _ => None) n st = None.
Proof.
  intros Hext Hdead n. induction n as [|n IH]; intros st; simpl; [reflexivity|].
  rewrite (Hext _ (fun _ => None) st); [rewrite Hdead; reflexivity|].
  intros st' _. destruct (idx st <? idx st')%nat; [apply IH|reflexivity].
Qed.

(** A continuation that always fails makes the match fail. *)
Lemma m_dead (r : regex) : forall st, m r (fun _ => None) st = None.
Proof.
  induction r as [| |c| |items|r1 IH1 r2 IH2|r1 IH1 r2 IH2|r1 IH1|r1 IH1|name r1 IH1];
    intros st; simpl; try reflexivity.
  - destruct (idx st =? 0)%nat; reflexivity.
  - unfold step. destruct (rest st); [reflexivity|]. destruct (Ascii.eqb c a); reflexivity.
  - unfold step. destruct (rest st); [reflexivity|]. destruct (negb _); reflexivity.
  - unfold step. destruct (rest st); [reflexivity|]. destruct (in_class items a); reflexivity.
  - rewrite (m_ext r1 _ (fun _ => None) st); [apply IH1|]. intros st' _. apply IH2.
  - rewrite IH1, IH2. reflexivity.
  - apply loop_dead; [apply m_ext|exact IH1].
  - rewrite (m_ext r1 _ (fun _ => None) st); [apply IH1|].
    intros st' _. apply loop_dead; [apply m_ext|exact IH1].
  - apply IH1.
Qed.

(** One more round than the text ahead has characters changes nothing. *)
Lemma loop_spare_round (r : regex) (k : cont) :
  forall n st, (String.length (rest st) <= n)%nat ->
               loop (m r) k (S n) st = loop (m r) k n st.
Proof.
  induction n as [|n IH]; intros st Hlen.
  - simpl. rewrite (m_ext r _ (fun _ => None) st); [rewrite m_dead; reflexivity|].
    intros st' [H1 H2]. destruct (Nat.ltb_spec (idx st) (idx st')); [lia|reflexivity].
  - change (loop (m r) k (S (S n)) st) with
      (match m r (fun st' => if (idx st <? idx st')%nat
                             then loop (m r) k (S n) st' else None) st with
       | Some res => Some res
       | None => k st
       end).
    change (loop (m r) k (S n) st) with
      (match m r (fun st' => if (idx st <? idx st')%nat
                             then loop (m r) k n st' else None) st with
       | Some res => Some res
       | None => k st
       end).
    rewrite (m_ext r _ (fun st' => if (idx st <? idx st')%nat
                                   then loop (m r) k n st' else None) st);
      [reflexivity|].
    intros st' [H1 H2]. destruct (Nat.ltb_spec (idx st) (idx st')); [|reflexivity].
    apply IH. lia.
Qed.

Lemma loop_enough (r : regex) (k : cont) (st : mstate) :
  forall d, loop (m r) k (String.length (rest st) + d) st =
            loop (m r) k (String.length (rest st)) st.
Proof.
  induction d as [|d IH]; [rewrite Nat.add_0_r; reflexivity|].
  rewrite <- plus_n_Sm, loop_spare_round; [exact IH|lia].
Qed.

(** The equation of the greedy star: one round of [r] that consumes text
    and the star again, or else the continuation.  The bound of [loop] is
    therefore never what stops a repetition. *)
Lemma star_unfold (r : regex) (k : cont) (st : mstate) :
  m (Star r) k st =
  match m r (fun st' => if (idx st <? idx st')%nat then m (Star r) k st'
                        else None) st with
  | Some res => Some res
  | None => k st
  end.
Proof.
  simpl. destruct (String.length (rest st)) as [|n] eqn:Hlen.
  - simpl. rewrite (m_ext r _ (fun _ => None) st); [rewrite m_dead; reflexivity|].
    intros st' [H1 H2]. destruct (Nat.ltb_spec (idx st) (idx st')); [lia|reflexivity].
  - simpl. symmetry.
    rewrite (m_ext r (fun st' => if (idx st <? idx st')%nat
                                 then loop (m r) k (String.length (rest st')) st'
                                 else None)
                     (fun st' => if (idx st <? idx st')%nat
                                 then loop (m r) k n st' else None) st);
      [reflexivity|].
    intros st' [H1 H2]. destruct (Nat.ltb_spec (idx st) (idx st')); [|reflexivity].
    replace n with (String.length (rest st') + (n - String.length (rest st')))%nat
      by lia.
    symmetry. apply loop_enough.
Qed.

(** [r+] is [r] followed by [r*]. *)
Lemma plus_is_seq_star (r : regex) (k : cont) (st : mstate) :
  m (Plus r) k st = m (Seq r (Star r)) k st.
Proof. reflexivity. Qed.

(** A successful match has called its continuation on a state ahead. *)
Lemma m_reach (r : regex) :
  forall st0 k st res, m r k st = Some res -> reach st0 st ->
  exists st', reach st0 st' /\ k st' = Some res.
Proof.
  induction r as [| |c| |items|r1 IH1 r2 IH2|r1 IH1 r2 IH2|r1 IH1|r1 IH1|name r1 IH1];
    simpl; intros st0 k st res Hm Hst.
  - exists st. split; assumption.
  - destruct (idx st =? 0)%nat; [|discriminate]. exists st. split; assumption.
  - apply step_inv in Hm. destruct Hm as (a & s' & Hr & _ & Hk).
    eexists. split; [|exact Hk]. eapply reach_trans; [exact Hst|exact (reach_step st a s' Hr)].
  - apply step_inv in Hm. destruct Hm as (a & s' & Hr & _ & Hk).
    eexists. split; [|exact Hk]. eapply reach_trans; [exact Hst|exact (reach_step st a s' Hr)].
  - apply step_inv in Hm. destruct Hm as (a & s' & Hr & _ & Hk).
    eexists. split; [|exact Hk]. eapply reach_trans; [exact Hst|exact (reach_step st a s' Hr)].
  - destruct (IH1 st0 _ _ _ Hm Hst) as (st1 & Hst1 & Hk1).
    exact (IH2 st0 _ _ _ Hk1 Hst1).
  - destruct (m r1 k st) as [r0|] eqn:H1.
    + injection Hm as ->. exact (IH1 st0 _ _ _ H1 Hst).
    + exact (IH2 st0 _ _ _ Hm Hst).
  - exact (loop_inv (reach st0) (m r1) (IH1 st0) _ _ _ _ Hm Hst).
  - destruct (IH1 st0 _ _ _ Hm Hst) as (st1 & Hst1 & Hk1).
    exact (loop_inv (reach st0) (m r1) (IH1 st0) _ _ _ _ Hk1 Hst1).
  - destruct (IH1 st0 _ _ _ Hm Hst) as (st1 & Hst1 & Hk1).
    eexists. split; [|exact Hk1]. apply reach_set_group. exact Hst1.
Qed.

Lemma m_progress (r : regex) :
  consuming r ->
  forall k st res, m r k st = Some res ->
  exists st', reach st st' /\ (idx st < idx st')%nat /\ k st' = Some res.
Proof.
  induction r as [| |c| |items|r1 IH1 r2 IH2|r1 IH1 r2 IH2|r1 IH1|r1 IH1|name r1 IH1];
    simpl; intros Hc k st res Hm; try contradiction.
  - apply step_inv in Hm. destruct Hm as (a & s' & Hr & _ & Hk).
    eexists. split; [exact (reach_step st a s' Hr)|]. split; [simpl; lia|exact Hk].
  - apply step_inv in Hm. destruct Hm as (a & s' & Hr & _ & Hk).
    eexists. split; [exact (reach_step st a s' Hr)|]. split; [simpl; lia|exact Hk].
  - apply step_inv in Hm. destruct Hm as (a & s' & Hr & _ & Hk).
    eexists. split; [exact (reach_step st a s' Hr)|]. split; [simpl; lia|exact Hk].
  - destruct Hc as [Hc|Hc].
    + destruct (IH1 Hc _ _ _ Hm) as (st1 & Hr1 & Hlt & Hk1).
      destruct (m_reach r2 st1 _ _ _ Hk1 (reach_refl st1)) as (st2 & Hr2 & Hk2).
      exists st2. split; [eapply reach_trans; eassumption|].
      split; [destruct Hr2; lia|exact Hk2].
    + destruct (m_reach r1 st _ _ _ Hm (reach_refl st)) as (st1 & Hr1 & Hk1).
      destruct (IH2 Hc _ _ _ Hk1) as (st2 & Hr2 & Hlt & Hk2).
      exists st2. split; [eapply reach_trans; eassumption|].
      split; [destruct Hr1; lia|exact Hk2].
  - destruct Hc as [Hc1 Hc2]. destruct (m r1 k st) as [r0|] eqn:H1.
    + injection Hm as ->. exact (IH1 Hc1 _ _ _ H1).
    + exact (IH2 Hc2 _ _ _ Hm).
  - destruct (IH1 Hc _ _ _ Hm) as (st1 & Hr1 & Hlt & Hk1).
    destruct (loop_inv (reach st1) (m r1) (m_reach r1 st1) _ _ _ _ Hk1 (reach_refl st1))
      as (st2 & Hr2 & Hk2).
    exists st2. split; [eapply reach_trans; eassumption|].
    split; [destruct Hr2; lia|exact Hk2].
  - destruct (IH1 Hc _ _ _ Hm) as (st1 & Hr1 & Hlt & Hk1).
    exists (set_group name st st1). split; [apply reach_set_group; exact Hr1|].
    split; [exact Hlt|exact Hk1].
Qed.

Lemma match_at_consumes (r : regex) (p : nat) (s : string) (mt : Match) :
  consuming r -> match_at r p s = Some mt -> (p < m_end mt)%nat.
Proof.
  unfold match_at. intros Hc H.
  destruct (m r Some _) as [res|] eqn:Hm; [|discriminate]. injection H as <-.
  destruct (m_progress r Hc _ _ _ Hm) as (st' & _ & Hlt & Heq).
  injection Heq as <-. exact Hlt.
Qed.

(** For a part that consumes text, the continuation matters only on the
    states strictly ahead. *)
Lemma m_ext_strict (r : regex) :
  consuming r ->
  forall k k' st,
    (forall st', reach st st' -> (idx st < idx st')%nat -> k st' = k' st') ->
    m r k st = m r k' st.
Proof.
  induction r as [| |c| |items|r1 IH1 r2 IH2|r1 IH1 r2 IH2|r1 IH1|r1 IH1|name r1 IH1];
    simpl; intros Hc k k' st H; try contradiction.
  - unfold step. destruct (rest st) as [|a s'] eqn:Hr; [reflexivity|].
    destruct (Ascii.eqb c a); [|reflexivity].
    apply H; [exact (reach_step st a s' Hr)|simpl; lia].
  - unfold step. destruct (rest st) as [|a s'] eqn:Hr; [reflexivity|].
    destruct (negb _); [|reflexivity].
    apply H; [exact (reach_step st a s' Hr)|simpl; lia].
  - unfold step. destruct (rest st) as [|a s'] eqn:Hr; [reflexivity|].
    destruct (in_class items a); [|reflexivity].
    apply H; [exact (reach_step st a s' Hr)|simpl; lia].
  - destruct Hc as [Hc|Hc].
    + apply (IH1 Hc). intros st1 Hr1 Hlt. apply m_ext. intros st2 Hr2.
      apply H; [eapply reach_trans; eassumption|destruct Hr2; lia].
    + apply m_ext. intros st1 Hr1. apply (IH2 Hc). intros st2 Hr2 Hlt.
      apply H; [eapply reach_trans; eassumption|destruct Hr1; lia].
  - destruct Hc as [Hc1 Hc2]. rewrite (IH1 Hc1 k k' st H), (IH2 Hc2 k k' st H).
    reflexivity.
  - apply (IH1 Hc). intros st1 Hr1 Hlt. apply loop_ext; [apply m_ext|].
    intros st2 Hr2. apply H; [eapply reach_trans; eassumption|destruct Hr2; lia].
  - apply (IH1 Hc). intros st1 Hr1 Hlt.
    apply H; [apply reach_set_group; exact Hr1|exact Hlt].
Qed.

(** The greedy star of a part that consumes text: a round of [r] and the
    star again, or else the continuation. *)
Lemma star_greedy (r : regex) (k : cont) (st : mstate) :
  consuming r ->
  m (Star r) k st =
  match m r (m (Star r) k) st with
  | Some res => Some res
  | None => k st
  end.
Proof.
  intros Hc. rewrite star_unfold at 1.
  rewrite (m_ext_strict r Hc _ (m (Star r) k) st); [reflexivity|].
  intros st' _ Hlt. rewrite (proj2 (Nat.ltb_lt _ _) Hlt). reflexivity.
Qed.

(** In the six patterns of the program every round of a repetition
    consumes text, so each star obeys [star_greedy]. *)
Lemma patterns_rounds_consume :
  Forall rounds_consume
    [categories_re; c4_style_re; bbc_style_re; original_air_date_re;
     subtitle_first_step_re; subtitle_re].
Proof. repeat constructor. Qed.

(** The two patterns of the sub-title never match the empty text. *)
Lemma subtitle_patterns_consume :
  consuming subtitle_first_step_re /\ consuming subtitle_re.
Proof. split; simpl; tauto. Qed.

(* ================================================================== *)
(** * parseSEP                                                         *)
(* ================================================================== *)

Lemma int_digits_total (s : string) :
  all_digits s = true -> forall acc, exists n, Py.int_digits acc s = Some n.
Proof.
  induction s as [|c s IH]; simpl; intros H acc.
  - eauto.
  - apply andb_true_iff in H. destruct H as [Hc Hs].
    unfold Py.digit_value. unfold is_digit, between in Hc. rewrite Hc.
    apply IH. exact Hs.
Qed.

Lemma int_total (s : string) :
  digit_run s = true -> exists n, Py.int s = inr n.
Proof.
  unfold digit_run. intros H. apply andb_true_iff in H. destruct H as [Hne Hd].
  destruct s as [|c s]; [discriminate|].
  unfold Py.int. destruct (int_digits_total _ Hd 0%Z) as (n & ->).
  exists n. reflexivity.
Qed.

Lemma lookup_digit_run (name : string) (gs : list (string * string)) (v : string) :
  digit_groups gs -> lookup name gs = Some v -> digit_run v = true.
Proof.
  induction 1 as [|[n w] gs Hw _ IH]; simpl; [discriminate|].
  destruct (n =? name).
  - intros Heq. injection Heq as <-. exact Hw.
  - exact IH.
Qed.

(** A field is always produced: [int] is only given digit runs. *)
Lemma sep_field_spec (mt : Match) (name : string) :
  digit_groups (m_groups mt) ->
  exists f, sep_field mt name = inr f /\
            zero_indexed (if existsb (String.eqb name) (m_names mt)
                          then group mt name else None) f.
Proof.
  intros Hg. unfold sep_field.
  destruct (existsb (String.eqb name) (m_names mt)); [|exists ""; split; reflexivity].
  unfold group. destruct (lookup name (m_groups mt)) as [g|] eqn:Hl;
    [|exists ""; split; reflexivity].
  pose proof (lookup_digit_run _ _ _ Hg Hl) as Hrun.
  destruct (int_total g Hrun) as (n & Hn).
  assert (Ht : Py.truthy_str g = true).
  { unfold digit_run in Hrun. apply andb_true_iff in Hrun. apply Hrun. }
  rewrite Ht, Hn. simpl. exists (Py.str_of_int (n - 1)). split; [reflexivity|].
  exists n. split; [exact Hn|reflexivity].
Qed.

Lemma c4_style_digit_grouped : digit_grouped c4_style_re.
Proof. simpl. repeat split. Qed.

Lemma bbc_style_digit_grouped : digit_grouped bbc_style_re.
Proof. simpl. repeat split. Qed.

(** [parseSEP] never raises. *)
Lemma parseSEP_total (text : string) :
  exists matched value, parseSEP text = inr (matched, value).
Proof.
  unfold parseSEP.
  destruct (search c4_style_re text) as [mt|] eqn:H4.
  - pose proof (search_digit_groups _ _ _ c4_style_digit_grouped H4) as Hg.
    destruct (sep_field_spec mt "S" Hg) as (fS & -> & _).
    destruct (sep_field_spec mt "E" Hg) as (fE & -> & _).
    destruct (sep_field_spec mt "P" Hg) as (fP & -> & _).
    simpl. eauto.
  - destruct (search bbc_style_re text) as [mt|] eqn:Hb.
    + pose proof (search_digit_groups _ _ _ bbc_style_digit_grouped Hb) as Hg.
      destruct (sep_field_spec mt "S" Hg) as (fS & -> & _).
      destruct (sep_field_spec mt "E" Hg) as (fE & -> & _).
      destruct (sep_field_spec mt "P" Hg) as (fP & -> & _).
      simpl. eauto.
    + simpl. eauto.
Qed.








(* ================================================================== *)
(** * addSeriesInfo2Programme                                          *)
(* ================================================================== *)

Lemma children_SubElement (parent child : Element) :
  children (SubElement parent child) = (children parent ++ [child])%list.
Proof. reflexivity. Qed.

Lemma find_SubElement_some (t : string) (parent child c : Element) :
  find t parent = Some c -> find t (SubElement parent child) = Some c.
Proof.
  unfold find. simpl. induction (children parent) as [|x xs IH]; simpl.
  - discriminate.
  - destruct (has_tag t x); auto.
Qed.

Lemma findall_SubElement (t : string) (parent child : Element) :
  findall t (SubElement parent child) =
  (findall t parent ++ (if has_tag t child then [child] else []))%list.
Proof. unfold findall. simpl. rewrite filter_app. reflexivity. Qed.


(** C1, as the code has it.  When the first category of the programme is
    Movie or News, the annotator returns the programme as it received it,
    whatever the short description matches: no episode-num of either
    system is added. *)
Theorem first_category_movie_or_news_unchanged
  (programme : Element) (event : Event) (c : Element) :
  find "category" programme = Some c ->
  text c = Some "Movie" \/ text c = Some "News" ->
  addSeriesInfo2Programme programme event = inr programme /\
  keeps_episode_nums programme event.
Proof.
  intros Hfind Htext.
  assert (H : addSeriesInfo2Programme programme event = inr programme).
  { unfold addSeriesInfo2Programme.
    destruct (parseSEP_total (shortdesc event)) as (matched & value & ->).
    simpl. rewrite Hfind. simpl.
    destruct Htext as [-> | ->]; reflexivity. }
  split; [exact H|]. exists programme. split; [exact H|reflexivity].
Qed.

Lemma first_category_movie_or_news_unchanged_witness :
  let event := MkEvent 0 30 "Film" "[Movie] Ep3/6 01/02/2020" "" "" in
  let programme := SubElement empty_programme (category "Movie") in
  find "category" programme = Some (category "Movie") /\
  (text (category "Movie") = Some "Movie" \/ text (category "Movie") = Some "News") /\
  addSeriesInfo2Programme programme event = inr programme /\
  keeps_episode_nums programme event.
Proof.
  intros event programme.
  assert (Hf : find "category" programme = Some (category "Movie")) by reflexivity.
  assert (Ht : text (category "Movie") = Some "Movie" \/
               text (category "Movie") = Some "News") by (left; reflexivity).
  split; [exact Hf|]. split; [exact Ht|].
  exact (first_category_movie_or_news_unchanged programme event (category "Movie") Hf Ht).
Defined.

(** C1, as stated, fails: a programme whose categories are Drama then
    Movie carries the category Movie, and the annotator adds the xmltv_ns
    episode-num of its short description. *)
Lemma movie_in_second_position_gets_episode_num :
  let event := MkEvent 0 30 "Show" "[Drama.Movie] Ep3/6" "" "" in
  let programme := addCategories2Programme empty_programme event in
  categories_of programme = [Some "Drama"; Some "Movie"] /\
  carries_category programme "Movie" /\
  addSeriesInfo2Programme programme event =
    inr (SubElement programme (episode_num "xmltv_ns" ".2.5")) /\
  ~ keeps_episode_nums programme event.
Proof.
  intros event programme.
  assert (Hc : categories_of programme = [Some "Drama"; Some "Movie"])
    by (vm_compute; reflexivity).
  assert (Hr : addSeriesInfo2Programme programme event =
               inr (SubElement programme (episode_num "xmltv_ns" ".2.5")))
    by (vm_compute; reflexivity).
  repeat split; try assumption.
  - unfold carries_category. rewrite Hc. right. left. reflexivity.
  - intros (p' & Hp' & Hn). rewrite Hr in Hp'. injection Hp' as <-.
    vm_compute in Hn. discriminate Hn.
Qed.




(* ================================================================== *)
(** * addCategories2Programme                                          *)
(* ================================================================== *)

Lemma append_children_nil (parent : Element) : append_children parent [] = parent.
Proof. destruct parent. unfold append_children. simpl. rewrite app_nil_r. reflexivity. Qed.

Lemma append_children_app (parent : Element) (l1 l2 : list Element) :
  append_children (append_children parent l1) l2 = append_children parent (l1 ++ l2).
Proof. unfold append_children. simpl. rewrite app_assoc. reflexivity. Qed.

Lemma add_captures (items : list (string * option string)) :
  forall programme,
    fold_left (fun programme '(_, value) =>
                 match value with
                 | Some c => if Py.truthy_str c
                             then SubElement programme (category c)
                             else programme
                 | None => programme
                 end) items programme =
    append_children programme (map category (flat_map nonempty (map snd items))).
Proof.
  induction items as [|[n v] items IH]; intros programme; simpl.
  - symmetry. apply append_children_nil.
  - rewrite IH, map_app, <- append_children_app. f_equal.
    destruct v as [c|]; simpl; [|symmetry; apply append_children_nil].
    destruct (Py.truthy_str c); simpl; [reflexivity|].
    symmetry. apply append_children_nil.
Qed.




(* ================================================================== *)
(** * addMovieCredits                                                  *)
(* ================================================================== *)

Lemma addMovieCredits_without_category (programme : Element) (event : Event) :
  find "category" programme = None -> addMovieCredits programme event = inr programme.
Proof. unfold addMovieCredits. intros ->. reflexivity. Qed.

(** What the function does on a first category with a text. *)
Lemma addMovieCredits_with_category
  (programme : Element) (event : Event) (c : Element) (txt : string) :
  find "category" programme = Some c -> text c = Some txt ->
  addMovieCredits programme event =
  inr (if Py.contains txt "Movie" &&
          (2 <? List.length (Py.split Py.newline (Some 2) (longdesc event)))%nat
       then SubElement programme
              (credits_of (Py.split Py.newline (Some 2) (longdesc event)))
       else programme).
Proof.
  unfold addMovieCredits. intros -> ->.
  destruct (Py.contains txt "Movie"); simpl; [|reflexivity].
  destruct (2 <? _)%nat; reflexivity.
Qed.


(** C3, the code at the failing input.  The short description
    ["[Mov] A film"] gives the single category Mov, which is not Movie, and
    the programme receives credits: the test is [in ('Movie')], a substring
    test against the string Movie. *)
Theorem credits_for_category_inside_Movie :
  let event := MkEvent 0 90 "Film" "[Mov] A film"
                       ("Plot" ++ nl ++ "Dir" ++ nl ++ "Ann" ++ nl) "" in
  let programme := addCategories2Programme empty_programme event in
  categories_of programme = [Some "Mov"] /\
  addMovieCredits programme event =
    inr (SubElement programme
           (MkElement "credits" [] None
              [leaf "director" [] "Dir"; leaf "actor" [] "Ann"])).
Proof. split; vm_compute; reflexivity. Qed.

(** C4, the code at the failing input.  The long description ends without
    a line break; the director is the second part, the actors are the
    lines of the third part, but the last one has lost its last
    character: Bob is emitted as Bo. *)
Theorem last_actor_loses_last_character :
  let event := MkEvent 0 90 "Film" "[Movie] A film"
                       ("Plot" ++ nl ++ "Dir" ++ nl ++ "Ann" ++ nl ++ "Bob") "" in
  let programme := addCategories2Programme empty_programme event in
  categories_of programme = [Some "Movie"] /\
  Py.split Py.newline (Some 2) (longdesc event) = ["Plot"; "Dir"; "Ann" ++ nl ++ "Bob"] /\
  addMovieCredits programme event =
    inr (SubElement programme
           (MkElement "credits" [] None
              [leaf "director" [] "Dir"; leaf "actor" [] "Ann";
               leaf "actor" [] "Bo"])).
Proof. repeat split; vm_compute; reflexivity. Qed.

(* ================================================================== *)
(** * The programme of an event                                        *)
(* ================================================================== *)

Lemma addCategories2Programme_appends (programme : Element) (event : Event) :
  addCategories2Programme programme event =
  append_children programme (map category (extract_categories (shortdesc event))).
Proof.
  unfold addCategories2Programme, extract_categories.
  destruct (search categories_re (shortdesc event)) as [mt|].
  - apply add_captures.
  - symmetry. apply append_children_nil.
Qed.

Lemma category_annotation (c : string) :
  is_annotation (category c) /\ texted_category (category c).
Proof. split; [left; reflexivity|]. intros _. discriminate. Qed.

Lemma episode_num_annotation (system value : string) :
  is_annotation (episode_num system value) /\
  texted_category (episode_num system value).
Proof. split; [right; left; reflexivity|]. intros H. discriminate H. Qed.

Lemma SubElement_append (parent child : Element) :
  SubElement parent child = append_children parent [child].
Proof. reflexivity. Qed.

(** The annotator returns, and what it returns is the programme with
    category and episode-num children appended. *)
Lemma addSeriesInfo2Programme_appends (programme : Element) (event : Event) :
  exists l, addSeriesInfo2Programme programme event = inr (append_children programme l) /\
            Forall is_annotation l /\ Forall texted_category l.
Proof.
  unfold addSeriesInfo2Programme.
  destruct (parseSEP_total (shortdesc event)) as (matched & value & ->).
  unfold Py.bind, Py.ret.
  pose proof (episode_num_annotation "xmltv_ns" value) as [E1 E2].
  pose proof (category_annotation "Series") as [S1 S2].
  destruct (no_episode_num _), matched, (find "category" programme),
    (search original_air_date_re (shortdesc event)) as [mt|];
    try pose proof (episode_num_annotation "original-air-date"
      (format_group mt "3" ++ "-" ++ format_group mt "2" ++ "-" ++ format_group mt "1"))
      as [A1 A2];
    eexists;
    (split;
     [first [ rewrite !SubElement_append, ?append_children_app; reflexivity
            | symmetry; f_equal; apply append_children_nil ]
     | split; repeat constructor; assumption ]).
Qed.

Lemma find_texted (programme c : Element) :
  Forall texted_category (children programme) ->
  find "category" programme = Some c -> exists txt, text c = Some txt.
Proof.
  intros Hall Hf. unfold find in Hf. apply find_some in Hf. destruct Hf as [Hin Ht].
  rewrite Forall_forall in Hall. specialize (Hall c Hin).
  unfold has_tag in Ht. apply String.eqb_eq in Ht.
  destruct (text c) as [txt|] eqn:E; [eauto|]. exfalso. apply (Hall Ht). exact E.
Qed.

Lemma addMovieCredits_appends (programme : Element) (event : Event) :
  Forall texted_category (children programme) ->
  exists l, addMovieCredits programme event = inr (append_children programme l) /\
            Forall is_annotation l.
Proof.
  intros Hall. destruct (find "category" programme) as [c|] eqn:Hf.
  - destruct (find_texted _ _ Hall Hf) as (txt & Ht).
    rewrite (addMovieCredits_with_category _ _ _ _ Hf Ht).
    destruct (Py.contains txt "Movie" && _).
    + exists [credits_of (Py.split Py.newline (Some 2) (longdesc event))].
      split; [reflexivity|]. constructor; [|constructor].
      right. right. left. reflexivity.
    + exists []. rewrite append_children_nil. split; [reflexivity|constructor].
  - rewrite (addMovieCredits_without_category _ _ Hf).
    exists []. rewrite append_children_nil. split; [reflexivity|constructor].
Qed.

(** The three annotators in a row return, having appended annotations
    only. *)
Lemma annotate_appends (programme : Element) (event : Event) :
  Forall texted_category (children programme) ->
  exists l,
    (annotated <- addSeriesInfo2Programme
                    (addCategories2Programme programme event) event ;;
     addMovieCredits annotated event) = inr (append_children programme l) /\
    Forall is_annotation l.
Proof.
  intros Hall. rewrite addCategories2Programme_appends.
  set (cats := map category (extract_categories (shortdesc event))).
  assert (Hcats : Forall is_annotation cats /\ Forall texted_category cats).
  { unfold cats. induction (extract_categories (shortdesc event)) as [|c l [I1 I2]]; simpl.
    - split; constructor.
    - destruct (category_annotation c). split; constructor; assumption. }
  destruct Hcats as [Hc1 Hc2].
  destruct (addSeriesInfo2Programme_appends (append_children programme cats) event)
    as (l1 & -> & Ha1 & Ht1).
  simpl. rewrite append_children_app.
  destruct (addMovieCredits_appends (append_children programme (cats ++ l1)) event)
    as (l2 & -> & Ha2).
  { simpl. rewrite !Forall_app. auto. }
  rewrite append_children_app. eexists. split; [reflexivity|].
  rewrite !Forall_app. auto.
Qed.

Lemma findall_append_annotations (t : string) (programme : Element) (l : list Element) :
  Forall is_annotation l -> ~ In t ["category"; "episode-num"; "credits"] ->
  findall t (append_children programme l) = findall t programme.
Proof.
  intros Hl Ht. unfold findall. simpl. rewrite filter_app.
  rewrite <- (app_nil_r (filter (has_tag t) (children programme))) at 2. f_equal.
  induction Hl as [|e l He _ IH]; simpl; [reflexivity|].
  unfold has_tag at 1. destruct (String.eqb_spec (tag e) t) as [<-|_]; [|exact IH].
  contradiction.
Qed.

Lemma not_annotation_tag (t : string) :
  existsb (String.eqb t) ["category"; "episode-num"; "credits"] = false ->
  ~ In t ["category"; "episode-num"; "credits"].
Proof.
  intros H Hin.
  assert (Ht : existsb (String.eqb t) ["category"; "episode-num"; "credits"] = true).
  { apply existsb_exists. exists t. split; [exact Hin|apply String.eqb_refl]. }
  rewrite Ht in H. discriminate H.
Qed.

Lemma findall_empty (t : string) (attrs : list (string * string)) :
  findall t (MkElement "programme" attrs None []) = [].
Proof. reflexivity. Qed.

Lemma length_positive (s : string) : (0 <? String.length s)%nat = negb (s =? "").
Proof. destruct s; reflexivity. Qed.

(** Runs the three annotators of a goal on [programme_of] and leaves the
    children that were there before them. *)
Ltac annotate :=
  match goal with
  | |- context [addSeriesInfo2Programme (addCategories2Programme ?P ?ev) ?ev] =>
      let l := fresh "l" in
      let Hl := fresh "Hl" in
      destruct (annotate_appends P ev) as (l & -> & Hl);
      [ rewrite ?children_SubElement; simpl children; simpl app;
        repeat constructor; intros H; discriminate H
      | eexists; split; [reflexivity|];
        rewrite !(findall_append_annotations _ _ _ Hl)
          by (apply not_annotation_tag; reflexivity);
        rewrite !findall_SubElement, ?findall_empty;
        cbn [has_tag tag leaf String.eqb Ascii.eqb Bool.eqb app map text] ]
  end.



(** C8, as the code has it.  Every event gets a programme.  When the
    sanitized title holds ["New: "] anywhere, the programme has one empty
    new element and its title text is the sanitized title after
    [replace], which removes the occurrences of ["New: "] from left to
    right; otherwise there is no new element and the title text is the
    sanitized title. *)
Theorem new_marker_and_title
  (h : Host.t) (service_program tzoffset : string) (event : Event) :
  exists programme,
    programme_of h service_program tzoffset event = inr programme /\
    if Py.contains "New: " (unescape h (title event))
    then findall "new" programme = [MkElement "new" [] None []] /\
         map text (findall "title" programme) =
           [Some (Py.replace (unescape h (title event)) "New: " "")]
    else findall "new" programme = [] /\
         map text (findall "title" programme) = [Some (unescape h (title event))].
Proof.
  unfold programme_of. cbv zeta.
  destruct (longdesc event =? "");
    [|destruct (0 <? String.length _)%nat];
    destruct (Py.contains "New: " (unescape h (title event)));
    cbv beta iota; annotate; split; reflexivity.
Qed.

(** C8, as stated, fails: the title opens with ["New: "] and holds it a
    second time; stripping the prefix would leave ["A New: B"], and the
    title text is ["A B"]. *)
Lemma second_New_is_removed_too :
  let event := MkEvent 0 30 "New: A New: B" "" "" "" in
  prefix "New: " (unescape Host.utc (title event)) = true /\
  strip_prefix "New: " (unescape Host.utc (title event)) = "A New: B" /\
  exists programme,
    programme_of Host.utc "1" "+0000" event = inr programme /\
    findall "new" programme = [MkElement "new" [] None []] /\
    map text (findall "title" programme) = [Some "A B"].
Proof.
  intros event. split; [vm_compute; reflexivity|].
  split; [vm_compute; reflexivity|].
  eexists. split; [vm_compute; reflexivity|]. split; vm_compute; reflexivity.
Qed.

(** On a text without ampersand [html.unescape] is the identity on every
    host, so the examples on [Host.utc] hold on every host with the html
    module. *)
Lemma html_unescape_without_ampersand (h : Host.t) (s : string) :
  Py.contains "&" s = false -> Host.html_unescape h s = s.
Proof. unfold Host.html_unescape. intros ->. reflexivity. Qed.

(* ================================================================== *)
(** * getOffset                                                        *)
(* ================================================================== *)

(** Whole hours are rendered as the specification describes. *)
Lemma tzo_of_whole_hours :
  forallb (fun hours => tzo_of_offset (hours * 3600) =? hhmm_of_offset (hours * 3600))
          (map (fun i => Z.of_nat i - 14)%Z (List.seq 0 29)) = true.
Proof. vm_compute. reflexivity. Qed.

(** C9, the code at the failing input.  For an offset of minus five and a
    half hours the code returns -0570 where the specification describes
    -0530, and +0570 for plus five and a half hours: [round] takes the
    hours to the nearest whole number, 6, the half hour becomes minus
    thirty minutes, and 600 - 30 is printed as it is.  One hour gives
    +0100. *)
Theorem half_hour_offset_rendered_as_70_minutes :
  tzo_of_offset (-19800) = "-0570" /\ hhmm_of_offset (-19800) = "-0530" /\
  tzo_of_offset 19800 = "+0570" /\ hhmm_of_offset 19800 = "+0530" /\
  tzo_of_offset 3600 = "+0100" /\ hhmm_of_offset 3600 = "+0100".
Proof. repeat split; vm_compute; reflexivity. Qed.

(* ================================================================== *)
(** * addChannels2XML                                                  *)
(* ================================================================== *)

Lemma addChannel_listed (h : Host.t) (epg : dict (list Event)) (url : string)
  (xmltv : Element) (service : Service) :
  (listed epg service = true ->
   exists xmltv', addChannel h epg url xmltv service = inr xmltv') /\
  (listed epg service = false ->
   dict_get (program service) epg = None /\
   addChannel h epg url xmltv service = inl (Py.KeyError (program service))).
Proof.
  unfold listed, addChannel, getitem.
  destruct (pos service) as [position|]; [|split; [eauto|discriminate]].
  destruct (Py.truthy_int position); [|split; [eauto|discriminate]].
  destruct (dict_get (program service) epg) as [[|first_event events]|];
    simpl; split; try discriminate; eauto.
Qed.

Lemma services_listed (h : Host.t) (epg : dict (list Event)) (url : string)
  (services : list Service) :
  forall xmltv,
    (forallb (listed epg) services = true ->
     exists xmltv', for_each (addChannel h epg url) services xmltv = inr xmltv') /\
    (forallb (listed epg) services = false ->
     exists k, dict_get k epg = None /\
               for_each (addChannel h epg url) services xmltv = inl (Py.KeyError k)).
Proof.
  induction services as [|service services IH]; intros xmltv; simpl.
  - split; [eauto|discriminate].
  - destruct (addChannel_listed h epg url xmltv service) as [Hyes Hno].
    destruct (listed epg service); simpl.
    + destruct (Hyes eq_refl) as (x1 & ->). simpl. apply IH.
    + split; [discriminate|]. intros _.
      destruct (Hno eq_refl) as (Hk & ->). simpl. eauto.
Qed.

(** C10, as the code has it.  The channel builder looks up the events of
    every service whose position is neither null nor zero.  When each of
    them has an entry in the EPG mapping the builder returns a document;
    an entry with no event gives a channel of two display names and no
    icon.  Otherwise the builder raises KeyError, on a program reference
    that is absent from the mapping. *)
Theorem addChannels2XML_key_lookup
  (h : Host.t) (xmltv : Element) (bouquets_services : dict (list Service))
  (epg : dict (list Event)) (api_root_url : string) :
  (all_listed bouquets_services epg = true ->
   exists xmltv',
     addChannels2XML h xmltv bouquets_services epg api_root_url = inr xmltv') /\
  (all_listed bouquets_services epg = false ->
   exists k,
     dict_get k epg = None /\
     addChannels2XML h xmltv bouquets_services epg api_root_url =
       inl (Py.KeyError k)) /\
  (forall service position,
     pos service = Some position -> Py.truthy_int position = true ->
     dict_get (program service) epg = Some [] ->
     addChannel h epg api_root_url xmltv service =
       inr (SubElement xmltv
              (MkElement "channel" [("id", program service)] None
                 [leaf "display-name" [] (unescape h (servicename service));
                  leaf "display-name" [] (Py.str_of_int position)]))).
Proof.
  unfold addChannels2XML, all_listed. split; [|split].
  - revert xmltv. induction bouquets_services as [|[name services] bs IH];
      intros xmltv; simpl; [eauto|].
    intros H. apply andb_true_iff in H. destruct H as [H1 H2].
    destruct (proj1 (services_listed h epg api_root_url services xmltv) H1) as (x1 & ->).
    simpl. apply IH. exact H2.
  - revert xmltv. induction bouquets_services as [|[name services] bs IH];
      intros xmltv; simpl; [discriminate|].
    destruct (services_listed h epg api_root_url services xmltv) as [Hyes Hno].
    destruct (forallb (listed epg) services); simpl.
    + destruct (Hyes eq_refl) as (x1 & ->). simpl. apply IH.
    + intros _. destruct (Hno eq_refl) as (k & Hk & ->). simpl. eauto.
  - intros service position Hp Ht Hd. unfold addChannel, getitem.
    rewrite Hp, Ht, Hd. reflexivity.
Qed.

Lemma addChannels2XML_key_lookup_witness :
  let services := [("Favourites", [MkService (Some 1%Z) "One" "1" "1:0:1";
                                   MkService (Some 2%Z) "Two" "7" "1:0:2"])] in
  let epg := [("1", [MkEvent 0 30 "Show" "" "" "/picon/1.png"])] in
  all_listed services epg = false /\
  exists k,
    dict_get k epg = None /\
    addChannels2XML Host.utc tv services epg "http://box:80" = inl (Py.KeyError k).
Proof.
  intros services epg. split; [reflexivity|].
  apply (proj1 (proj2 (addChannels2XML_key_lookup Host.utc tv services epg "http://box:80"))).
  reflexivity.
Defined.

(** C10, as stated, fails: a service whose position is 0 has a non-null
    position and no entry in the EPG mapping, and the builder returns the
    document, without a channel for it. *)
Lemma zero_position_is_skipped :
  let service := MkService (Some 0%Z) "Marker" "9" "1:64:0" in
  pos service <> None /\
  dict_get (program service) [] = None (A := list Event) /\
  addChannels2XML Host.utc tv [("Favourites", [service])] [] "http://box:80" = inr tv.
Proof. split; [discriminate|]. split; reflexivity. Qed.


(* ================================================================== *)
(** * Dicts                                                            *)
(* ================================================================== *)

Lemma dict_get_set {V : Type} (k k' : string) (v : V) (d : dict V) :
  dict_get k' (dict_set k v d) = if (k =? k') then Some v else dict_get k' d.
Proof.
  induction d as [|[k0 v0] d IH]; simpl.
  - reflexivity.
  - destruct (String.eqb_spec k0 k) as [->|Hne]; simpl.
    + destruct (k =? k'); reflexivity.
    + rewrite IH. destruct (String.eqb_spec k k') as [<-|_]; [|reflexivity].
      destruct (String.eqb_spec k0 k) as [E|_]; [contradiction|reflexivity].
Qed.

Lemma dict_set_fresh {V : Type} (k : string) (v : V) (d : dict V) :
  ~ In k (keys d) -> dict_set k v d = (d ++ [(k, v)])%list.
Proof.
  induction d as [|[k0 v0] d IH]; simpl; intros H; [reflexivity|].
  destruct (String.eqb_spec k0 k) as [E|_]; [exfalso; apply H; left; exact E|].
  rewrite IH; [reflexivity|]. intros Hin. apply H. right. exact Hin.
Qed.

Lemma keys_dict_set {V : Type} (k : string) (v : V) (d : dict V) :
  keys (dict_set k v d) = if existsb (String.eqb k) (keys d) then keys d
                          else (keys d ++ [k])%list.
Proof.
  induction d as [|[k0 v0] d IH]; simpl; [reflexivity|].
  rewrite (String.eqb_sym k k0).
  destruct (String.eqb_spec k0 k) as [->|_]; simpl; [reflexivity|].
  unfold keys in *. rewrite IH. destruct (existsb _ _); reflexivity.
Qed.

Lemma keys_dict_set_NoDup {V : Type} (k : string) (v : V) (d : dict V) :
  NoDup (keys d) -> NoDup (keys (dict_set k v d)).
Proof.
  intros H. rewrite keys_dict_set.
  destruct (existsb (String.eqb k) (keys d)) eqn:E; [exact H|].
  apply NoDup_app; [exact H|repeat constructor; intros []|].
  intros a Ha [Ea|[]]. subst a.
  assert (Ht : existsb (String.eqb k) (keys d) = true).
  { apply existsb_exists. exists k. split; [exact Ha|apply String.eqb_refl]. }
  rewrite Ht in E. discriminate E.
Qed.

(* ================================================================== *)
(** * getBouquets, getBouquetsServices, getEPGs                        *)
(* ================================================================== *)

Lemma select_named (name : string) (bouquets : list (string * string)) :
  Py.truthy_str name = true ->
  forall acc : option string,
    fold_left (fun result b => if selected (Some name) b
                               then dict_set (snd b) (fst b) result
                               else result)
              bouquets
              (match acc with Some ref => [(name, ref)] | None => [] end) =
    match (match last_ref name bouquets with Some ref => Some ref | None => acc end)
    with Some ref => [(name, ref)] | None => [] end.
Proof.
  intros Hname.
  assert (Hsel : forall b, selected (Some name) b = (snd b =? name)).
  { intros b. unfold selected. simpl. rewrite Hname. apply orb_false_r. }
  induction bouquets as [|b bs IH]; intros acc; cbn [fold_left last_ref].
  - reflexivity.
  - rewrite Hsel.
    destruct (String.eqb_spec (snd b) name) as [E|_].
    + rewrite E.
      assert (Hd : dict_set name (fst b)
                     match acc with Some ref => [(name, ref)] | None => [] end =
                   [(name, fst b)]).
      { destruct acc; simpl; rewrite ?String.eqb_refl; reflexivity. }
      rewrite Hd. pose proof (IH (Some (fst b))) as IH1. simpl in IH1.
      rewrite IH1. destruct (last_ref name bs); reflexivity.
    + rewrite IH. destruct (last_ref name bs); reflexivity.
Qed.

(** getBouquets with the name of a bouquet.  The result holds that name
    and no other: it is empty when the server lists no bouquet of that
    name, and otherwise its one entry maps the name to the service
    reference of the last bouquet so called. *)
Theorem getBouquets_by_name
  (server : Server) (name api_root_url : string)
  (bouquets : list (string * string)) :
  Py.truthy_str name = true ->
  get_bouquets server (api_root_url ++ "/api/bouquets") = inr bouquets ->
  getBouquets server (Some name) api_root_url =
  inr (match last_ref name bouquets with
       | Some ref => [(name, ref)]
       | None => []
       end).
Proof.
  intros Hname Hget. unfold getBouquets. rewrite Hget. simpl. f_equal.
  rewrite (select_named name bouquets Hname None).
  destruct (last_ref name bouquets); reflexivity.
Qed.

Lemma getBouquets_by_name_witness :
  let server := MkServer (fun _ => inr [("1:7:1:A", "Favourites"); ("1:7:1:B", "Sports");
                                        ("1:7:1:C", "Favourites")])
                         (fun _ => inr []) (fun _ => inr []) in
  Py.truthy_str "Favourites" = true /\
  get_bouquets server ("http://box:80" ++ "/api/bouquets") =
    inr [("1:7:1:A", "Favourites"); ("1:7:1:B", "Sports"); ("1:7:1:C", "Favourites")] /\
  getBouquets server (Some "Favourites") "http://box:80" =
  inr (match last_ref "Favourites" [("1:7:1:A", "Favourites"); ("1:7:1:B", "Sports");
                                    ("1:7:1:C", "Favourites")] with
       | Some ref => [("Favourites", ref)]
       | None => []
       end).
Proof.
  intros server. split; [reflexivity|]. split; [reflexivity|].
  apply (getBouquets_by_name server "Favourites" "http://box:80"); reflexivity.
Defined.

Lemma select_all (bouquet : option string) (bouquets : list (string * string)) :
  truthy_option bouquet = false ->
  forall (acc : dict string),
    NoDup (keys acc) ->
    NoDup (keys (fold_left (fun result b => if selected bouquet b
                                            then dict_set (snd b) (fst b) result
                                            else result) bouquets acc)) /\
    forall name,
      dict_get name (fold_left (fun result b => if selected bouquet b
                                                then dict_set (snd b) (fst b) result
                                                else result) bouquets acc) =
      match last_ref name bouquets with
      | Some ref => Some ref
      | None => dict_get name acc
      end.
Proof.
  intros Hb. induction bouquets as [|b bs IH]; intros acc Hnd;
    cbn [fold_left last_ref].
  - split; [exact Hnd|reflexivity].
  - assert (Hsel : selected bouquet b = true).
    { unfold selected. rewrite Hb. apply orb_true_r. }
    rewrite Hsel.
    destruct (IH (dict_set (snd b) (fst b) acc) (keys_dict_set_NoDup _ _ _ Hnd))
      as [H1 H2].
    split; [exact H1|]. intros name. rewrite H2, dict_get_set.
    destruct (last_ref name bs); [reflexivity|].
    destruct (snd b =? name); reflexivity.
Qed.

(** getBouquets without the name of a bouquet (none given, or the empty
    string).  Every bouquet the server lists is taken: the result maps each
    name to the service reference of the last bouquet so called, holds no
    other name, and holds no name twice. *)
Theorem getBouquets_all
  (server : Server) (bouquet : option string) (api_root_url : string)
  (bouquets : list (string * string)) :
  truthy_option bouquet = false ->
  get_bouquets server (api_root_url ++ "/api/bouquets") = inr bouquets ->
  exists result,
    getBouquets server bouquet api_root_url = inr result /\
    NoDup (keys result) /\
    forall name, dict_get name result = last_ref name bouquets.
Proof.
  intros Hb Hget. unfold getBouquets. rewrite Hget. simpl.
  eexists. split; [reflexivity|].
  destruct (select_all bouquet bouquets Hb [] (NoDup_nil _)) as [H1 H2].
  split; [exact H1|]. intros name. rewrite H2.
  destruct (last_ref name bouquets); reflexivity.
Qed.

Lemma getBouquets_all_witness :
  let server := MkServer (fun _ => inr [("1:7:1:A", "Favourites"); ("1:7:1:B", "Sports")])
                         (fun _ => inr []) (fun _ => inr []) in
  truthy_option None = false /\
  get_bouquets server ("http://box:80" ++ "/api/bouquets") =
    inr [("1:7:1:A", "Favourites"); ("1:7:1:B", "Sports")] /\
  exists result,
    getBouquets server None "http://box:80" = inr result /\
    NoDup (keys result) /\
    forall name, dict_get name result =
                 last_ref name [("1:7:1:A", "Favourites"); ("1:7:1:B", "Sports")].
Proof.
  intros server. split; [reflexivity|]. split; [reflexivity|].
  apply (getBouquets_all server None "http://box:80"); reflexivity.
Defined.

Lemma for_each_app {A S : Type} (body : S -> A -> Py.result S) (l1 l2 : list A) :
  forall s, for_each body (l1 ++ l2) s =
            (s' <- for_each body l1 s ;; for_each body l2 s').
Proof.
  induction l1 as [|a l1 IH]; intros s; simpl; [reflexivity|].
  destruct (body s a) as [e|s1]; simpl; [reflexivity|]. apply IH.
Qed.

(** Two nested loops over the bouquets and their services are one loop
    over all the services. *)
Lemma for_each_services {S : Type} (body : S -> Service -> Py.result S)
  (bouquets_services : dict (list Service)) :
  forall s,
    for_each (fun s entry => for_each body (snd entry) s) bouquets_services s =
    for_each body (services_of bouquets_services) s.
Proof.
  induction bouquets_services as [|entry bs IH]; intros s; simpl; [reflexivity|].
  unfold services_of. simpl. rewrite for_each_app.
  destruct (for_each body (snd entry) s) as [e|s1]; simpl; [reflexivity|]. apply IH.
Qed.

Lemma all_listed_services (bouquets_services : dict (list Service))
  (epg : dict (list Event)) :
  all_listed bouquets_services epg = forallb (listed epg) (services_of bouquets_services).
Proof.
  unfold all_listed, services_of.
  induction bouquets_services as [|entry bs IH]; simpl; [reflexivity|].
  rewrite forallb_app, IH. reflexivity.
Qed.

Lemma getBouquetsServices_from
  (server : Server) (api_root_url : string) (bouquets : dict string) :
  forall acc services,
    NoDup (keys acc ++ keys bouquets) ->
    for_each (fun services entry =>
                found <- get_services server
                           (api_root_url ++ "/api/getservices?sRef=" ++ snd entry) ;;
                Py.ret (dict_set (fst entry) found services)) bouquets acc =
      inr services ->
    exists tail,
      services = (acc ++ tail)%list /\
      Forall2 (fun b s =>
                 fst s = fst b /\
                 get_services server
                   (api_root_url ++ "/api/getservices?sRef=" ++ snd b) = inr (snd s))
              bouquets tail.
Proof.
  induction bouquets as [|b bs IH]; intros acc services Hnd; simpl.
  - intros H. injection H as <-. exists []. rewrite app_nil_r. split; constructor.
  - destruct (get_services server _) as [e|found] eqn:Hget; simpl; [discriminate|].
    intros H. simpl in Hnd.
    rewrite dict_set_fresh in H.
    + apply IH in H.
      * destruct H as (tail & -> & HF). exists ((fst b, found) :: tail).
        rewrite <- app_assoc. split; [reflexivity|].
        constructor; [split; [reflexivity|exact Hget]|exact HF].
      * unfold keys in *. rewrite map_app, <- app_assoc. exact Hnd.
    + apply NoDup_remove_2 in Hnd. intros Hin. apply Hnd.
      apply in_or_app. left. exact Hin.
Qed.

(** getBouquetsServices.  When it returns, its result holds one entry per
    bouquet, in the order of the bouquets: the name of the bouquet with the
    services the server answered for the reference of that bouquet. *)
Theorem getBouquetsServices_one_list_per_bouquet
  (server : Server) (bouquets : dict string) (api_root_url : string)
  (services : dict (list Service)) :
  NoDup (keys bouquets) ->
  getBouquetsServices server bouquets api_root_url = inr services ->
  Forall2 (fun b s =>
             fst s = fst b /\
             get_services server
               (api_root_url ++ "/api/getservices?sRef=" ++ snd b) = inr (snd s))
          bouquets services.
Proof.
  intros Hnd H. unfold getBouquetsServices in H.
  apply (getBouquetsServices_from server api_root_url bouquets []) in H.
  - destruct H as (tail & -> & HF). exact HF.
  - exact Hnd.
Qed.

Lemma getBouquetsServices_one_list_per_bouquet_witness :
  let server := MkServer (fun _ => inr [])
                         (fun url => inr [MkService (Some 1%Z) url "1" "1:0:1"])
                         (fun _ => inr []) in
  let bouquets := [("Favourites", "1:7:1:A"); ("Sports", "1:7:1:B")] in
  exists services,
    NoDup (keys bouquets) /\
    getBouquetsServices server bouquets "http://box:80" = inr services /\
    Forall2 (fun b s =>
               fst s = fst b /\
               get_services server
                 ("http://box:80" ++ "/api/getservices?sRef=" ++ snd b) = inr (snd s))
            bouquets services.
Proof.
  intros server bouquets. eexists.
  assert (Hnd : NoDup (keys bouquets)).
  { repeat constructor; simpl; intuition discriminate. }
  assert (Hget : getBouquetsServices server bouquets "http://box:80" = inr _)
    by (vm_compute; reflexivity).
  split; [exact Hnd|]. split; [exact Hget|].
  exact (getBouquetsServices_one_list_per_bouquet server bouquets "http://box:80" _
           Hnd Hget).
Defined.

Lemma listed_dict_set (epg : dict (list Event)) (k : string) (v : list Event)
  (service : Service) :
  listed epg service = true -> listed (dict_set k v epg) service = true.
Proof.
  unfold listed. destruct (pos service) as [position|]; [|reflexivity].
  destruct (Py.truthy_int position); [|reflexivity].
  rewrite dict_get_set. destruct (k =? program service); [reflexivity|].
  intros H. exact H.
Qed.

Lemma getEPG_listed (server : Server) (api_root_url : string)
  (epg epg' : dict (list Event)) (service : Service) :
  getEPG server api_root_url epg service = inr epg' ->
  listed epg' service = true /\
  forall s, listed epg s = true -> listed epg' s = true.
Proof.
  unfold getEPG, listed at 1.
  destruct (pos service) as [position|]; [|intros H; injection H as <-; auto].
  destruct (Py.truthy_int position); [|intros H; injection H as <-; auto].
  destruct (get_events server _) as [e|events]; simpl; [discriminate|].
  intros H. injection H as <-. split.
  - rewrite dict_get_set, String.eqb_refl. reflexivity.
  - intros s. apply listed_dict_set.
Qed.

Lemma getEPGs_listed (server : Server) (api_root_url : string)
  (services : list Service) :
  forall epg epg',
    for_each (getEPG server api_root_url) services epg = inr epg' ->
    forallb (listed epg') services = true /\
    forall s, listed epg s = true -> listed epg' s = true.
Proof.
  induction services as [|service services IH]; intros epg epg'; simpl.
  - intros H. injection H as <-. auto.
  - destruct (getEPG server api_root_url epg service) as [e|epg1] eqn:H1; simpl;
      [discriminate|].
    intros H. destruct (getEPG_listed _ _ _ _ _ H1) as [Hs Hmono].
    destruct (IH _ _ H) as [Hall Hmono'].
    split; [|auto]. rewrite Hall, (Hmono' _ Hs). reflexivity.
Qed.

Lemma addChannels2XML_services (h : Host.t) (xmltv : Element)
  (bouquets_services : dict (list Service)) (epg : dict (list Event)) (url : string) :
  addChannels2XML h xmltv bouquets_services epg url =
  for_each (addChannel h epg url) (services_of bouquets_services) xmltv.
Proof. unfold addChannels2XML. apply for_each_services. Qed.

(** getEPGs, then addChannels2XML.  The mapping getEPGs returns has an
    entry for every service of the same bouquets whose position is neither
    null nor zero, so the channel builder, given that mapping, finds every
    key it looks up and returns a document. *)
Theorem getEPGs_feeds_addChannels2XML
  (server : Server) (bouquets_services : dict (list Service))
  (api_root_url : string) (epg : dict (list Event)) :
  getEPGs server bouquets_services api_root_url = inr epg ->
  all_listed bouquets_services epg = true /\
  forall h xmltv root,
    exists xmltv', addChannels2XML h xmltv bouquets_services epg root = inr xmltv'.
Proof.
  intros H. unfold getEPGs in H. rewrite for_each_services in H.
  apply getEPGs_listed in H. destruct H as [Hall _].
  split; [rewrite all_listed_services; exact Hall|].
  intros h xmltv root. rewrite addChannels2XML_services.
  exact (proj1 (services_listed h epg root _ xmltv) Hall).
Qed.

Lemma getEPGs_feeds_addChannels2XML_witness :
  let server := MkServer (fun _ => inr []) (fun _ => inr [])
                         (fun _ => inr [MkEvent 0 30 "Show" "" "" "/picon/1.png"]) in
  let services := [("Favourites", [MkService (Some 1%Z) "One" "1" "1:0:1";
                                   MkService (Some 0%Z) "Marker" "9" "1:64:0";
                                   MkService (Some 2%Z) "Two" "7" "1:0:2"])] in
  exists epg,
    getEPGs server services "http://box:80" = inr epg /\
    all_listed services epg = true /\
    forall h xmltv root,
      exists xmltv', addChannels2XML h xmltv services epg root = inr xmltv'.
Proof.
  intros server services. eexists.
  assert (H : getEPGs server services "http://box:80" = inr _)
    by (vm_compute; reflexivity).
  split; [exact H|].
  exact (getEPGs_feeds_addChannels2XML server services "http://box:80" _ H).
Defined.

(* ================================================================== *)
(** * The documents of the two builders                                *)
(* ================================================================== *)

Lemma addChannels_from (h : Host.t) (epg : dict (list Event)) (url : string)
  (services : list Service) :
  forall xmltv xmltv',
    for_each (addChannel h epg url) services xmltv = inr xmltv' ->
    exists channels,
      xmltv' = append_children xmltv channels /\
      Forall2 (channel_for h epg url) (filter positioned services) channels.
Proof.
  induction services as [|service services IH]; intros xmltv xmltv'; simpl.
  - intros H. injection H as <-. exists []. rewrite append_children_nil.
    split; constructor.
  - unfold addChannel at 1, positioned at 1, getitem.
    destruct (pos service) as [position|] eqn:Hpos; [|simpl; apply IH].
    destruct (Py.truthy_int position); [|simpl; apply IH].
    destruct (dict_get (program service) epg) as [events|] eqn:Hget; simpl;
      [|discriminate].
    assert (Hc : channel_for h epg url service
                   (channel_of h service position
                      match events with
                      | first_event :: _ =>
                          [MkElement "icon" [("src", url ++ picon first_event)] None []]
                      | [] => []
                      end)).
    { exists position, events. auto. }
    destruct events as [|first_event events]; simpl; intros H;
      apply IH in H; destruct H as (channels & -> & HF);
      rewrite SubElement_append, append_children_app;
      eexists; (split; [reflexivity|]); constructor; assumption.
Qed.

(** addChannels2XML.  When it returns, the document is the one it was
    given with one channel appended per service whose position is neither
    null nor zero, in the order of the bouquets and of their services, a
    service listed twice giving two channels; each channel has the program
    reference as id, the two display names, and the icon of the first
    event when the service has one. *)
Theorem addChannels2XML_one_channel_per_positioned_service
  (h : Host.t) (xmltv xmltv' : Element) (bouquets_services : dict (list Service))
  (epg : dict (list Event)) (api_root_url : string) :
  addChannels2XML h xmltv bouquets_services epg api_root_url = inr xmltv' ->
  exists channels,
    xmltv' = append_children xmltv channels /\
    Forall2 (channel_for h epg api_root_url)
            (filter positioned (services_of bouquets_services)) channels.
Proof.
  rewrite addChannels2XML_services. apply addChannels_from.
Qed.

Lemma addChannels2XML_one_channel_per_positioned_service_witness :
  let services := [("Favourites", [MkService (Some 1%Z) "One" "1" "1:0:1";
                                   MkService None "Marker" "9" "1:64:0"])] in
  let epg := [("1", [MkEvent 0 30 "Show" "" "" "/picon/1.png"])] in
  exists xmltv',
    addChannels2XML Host.utc tv services epg "http://box:80" = inr xmltv' /\
    exists channels,
      xmltv' = append_children tv channels /\
      Forall2 (channel_for Host.utc epg "http://box:80")
              (filter positioned (services_of services)) channels.
Proof.
  intros services epg. eexists.
  assert (H : addChannels2XML Host.utc tv services epg "http://box:80" = inr _)
    by (vm_compute; reflexivity).
  split; [exact H|].
  exact (addChannels2XML_one_channel_per_positioned_service _ _ _ _ _ _ H).
Defined.








(* ================================================================== *)
(** * The whole run                                                    *)
(* ================================================================== *)







(* ================================================================== *)
(** * What a match must have consumed, and what it has captured        *)
(* ================================================================== *)

(** An invariant of the states that every step and every closing of a
    group keeps is kept by a match. *)
Lemma m_preserves (I : mstate -> Prop) :
  (forall st c s', I st -> rest st = String c s' ->
                   I (MState (S (idx st)) s' (groups st))) ->
  (forall name st0 st, I st -> I (set_group name st0 st)) ->
  forall r k st res, m r k st = Some res -> I st ->
  exists st', I st' /\ k st' = Some res.
Proof.
  intros Hstep Hgroup.
  induction r as [| |c| |items|r1 IH1 r2 IH2|r1 IH1 r2 IH2|r1 IH1|r1 IH1|name r1 IH1];
    simpl; intros k st res Hm Hst.
  - exists st. split; assumption.
  - destruct (idx st =? 0)%nat; [|discriminate]. exists st. split; assumption.
  - apply step_inv in Hm. destruct Hm as (a & s' & Hr & _ & Hk).
    eexists. split; [|exact Hk]. eapply Hstep; eassumption.
  - apply step_inv in Hm. destruct Hm as (a & s' & Hr & _ & Hk).
    eexists. split; [|exact Hk]. eapply Hstep; eassumption.
  - apply step_inv in Hm. destruct Hm as (a & s' & Hr & _ & Hk).
    eexists. split; [|exact Hk]. eapply Hstep; eassumption.
  - destruct (IH1 _ _ _ Hm Hst) as (st1 & Hst1 & Hk1). exact (IH2 _ _ _ Hk1 Hst1).
  - destruct (m r1 k st) as [r0|] eqn:H1.
    + injection Hm as ->. exact (IH1 _ _ _ H1 Hst).
    + exact (IH2 _ _ _ Hm Hst).
  - exact (loop_inv I (m r1) IH1 _ _ _ _ Hm Hst).
  - destruct (IH1 _ _ _ Hm Hst) as (st1 & Hst1 & Hk1).
    exact (loop_inv I (m r1) IH1 _ _ _ _ Hk1 Hst1).
  - destruct (IH1 _ _ _ Hm Hst) as (st1 & Hst1 & Hk1).
    eexists. split; [|exact Hk1]. apply Hgroup. exact Hst1.
Qed.

(** A character ahead of a later state is ahead of the earlier one. *)
Lemma m_ahead (p : ascii -> bool) (r : regex) (k : cont) (st res : mstate) :
  m r k st = Some res ->
  exists st', (has_char p (rest st') = true -> has_char p (rest st) = true) /\
              k st' = Some res.
Proof.
  intros Hm.
  apply (m_preserves
           (fun st' => has_char p (rest st') = true -> has_char p (rest st) = true))
    with (r := r) (st := st); auto.
  - intros st1 c s' H1 Hr. simpl. intros Hs'. apply H1. rewrite Hr. simpl.
    rewrite Hs'. apply orb_true_r.
Qed.

Lemma m_needs (p : ascii -> bool) (r : regex) :
  needs p r ->
  forall k st res, m r k st = Some res -> has_char p (rest st) = true.
Proof.
  induction r as [| |c| |items|r1 IH1 r2 IH2|r1 IH1 r2 IH2|r1 IH1|r1 IH1|name r1 IH1];
    simpl; intros Hn k st res Hm; try contradiction.
  - apply step_inv in Hm. destruct Hm as (a & s' & Hr & Ha & _).
    apply Ascii.eqb_eq in Ha. subst a. rewrite Hr. simpl. rewrite Hn. reflexivity.
  - apply step_inv in Hm. destruct Hm as (a & s' & Hr & Ha & _).
    rewrite Hr. simpl. rewrite (Hn a Ha). reflexivity.
  - destruct Hn as [Hn|Hn].
    + exact (IH1 Hn _ _ _ Hm).
    + destruct (m_ahead p r1 _ _ _ Hm) as (st1 & Hsub & Hk).
      apply Hsub. exact (IH2 Hn _ _ _ Hk).
  - destruct Hn as [Hn1 Hn2]. destruct (m r1 k st) as [r0|] eqn:H1.
    + exact (IH1 Hn1 _ _ _ H1).
    + exact (IH2 Hn2 _ _ _ Hm).
  - exact (IH1 Hn _ _ _ Hm).
  - exact (IH1 Hn _ _ _ Hm).
Qed.

Lemma match_at_needs (p : ascii -> bool) (r : regex) (i : nat) (s : string) :
  needs p r -> has_char p s = false -> match_at r i s = None.
Proof.
  intros Hn Hs. unfold match_at.
  destruct (m r Some (MState i s [])) as [res|] eqn:Hm; [|reflexivity].
  apply (m_needs p r Hn) in Hm. simpl in Hm. rewrite Hm in Hs. discriminate Hs.
Qed.

(** A pattern that needs a character the text does not hold is not found
    in it, and substituting it changes nothing. *)
Lemma search_needs (p : ascii -> bool) (r : regex) (s : string) :
  needs p r -> has_char p s = false -> forall i, search_from r i s = None.
Proof.
  intros Hn. induction s as [|c s IH]; intros Hs i; simpl;
    rewrite (match_at_needs p r i _ Hn Hs); [reflexivity|].
  apply IH. simpl in Hs. apply orb_false_iff in Hs. apply Hs.
Qed.

Lemma sub_needs (p : ascii -> bool) (r : regex) (repl s : string) :
  needs p r -> has_char p s = false -> forall i, sub_from r repl 0 i s = s.
Proof.
  intros Hn. induction s as [|c s IH]; intros Hs i; simpl;
    rewrite (match_at_needs p r i _ Hn Hs); [reflexivity|].
  f_equal. apply IH. simpl in Hs. apply orb_false_iff in Hs. apply Hs.
Qed.

(** A pattern that opens with [^] matches at the start only. *)
Lemma sub_anchored_later (r : regex) (repl s : string) :
  forall i, sub_from (Seq Bol r) repl 0 (S i) s = s.
Proof.
  induction s as [|c s IH]; intros i; simpl; unfold match_at; simpl; [reflexivity|].
  f_equal. apply IH.
Qed.

Lemma m_calls (r : regex) (k : cont) (st res : mstate) :
  m r k st = Some res -> exists st', k st' = Some res.
Proof.
  intros Hm. destruct (m_reach r st k st res Hm (reach_refl st)) as (st' & _ & Hk).
  eauto.
Qed.

(** Once a group is set it stays set. *)
Lemma m_keeps_group (name : string) (r : regex) (k : cont) (st res : mstate) :
  m r k st = Some res -> lookup name (groups st) <> None ->
  exists st', lookup name (groups st') <> None /\ k st' = Some res.
Proof.
  intros Hm Hst.
  apply (m_preserves (fun st' => lookup name (groups st') <> None))
    with (r := r) (st := st); auto.
  intros n st0 st1 H1. unfold set_group. simpl.
  destruct (n =? name); [discriminate|exact H1].
Qed.

(** What [[...]+] hands to its continuation: a run of the class has been
    consumed and no group has changed. *)
Lemma class_consume (items : list item) (k : cont) (st res : mstate) :
  m (Plus (Cls items)) k st = Some res ->
  exists d s', class_run items d = true /\ rest st = d ++ s' /\
               k (MState (idx st + String.length d) s' (groups st)) = Some res.
Proof.
  simpl. intros H.
  apply step_inv in H. destruct H as (c & s1 & Hr & Hp & Hk). simpl in Hk.
  apply loop_step_run in Hk. destruct Hk as (d & s' & Hr' & Hd & Hk).
  simpl in *. exists (String c d), s'. repeat split.
  - unfold class_run. simpl. rewrite Hp. simpl.
    clear - Hd. induction d as [|a d IH]; simpl; [reflexivity|].
    rewrite (Hd a) by (simpl; rewrite Ascii.eqb_refl; reflexivity). simpl.
    apply IH. intros c0 Hc0. apply Hd. simpl. rewrite Hc0. apply andb_false_r.
  - simpl. rewrite Hr, Hr'. reflexivity.
  - simpl. rewrite <- plus_n_Sm. exact Hk.
Qed.

Lemma m_class_groups (items : list item) (r : regex) :
  class_grouped items r ->
  forall k st res, m r k st = Some res -> class_groups items (groups st) ->
  exists st', class_groups items (groups st') /\ k st' = Some res.
Proof.
  induction r as [| |c| |its|r1 IH1 r2 IH2|r1 IH1 r2 IH2|r1 IH1|r1 IH1|name r1 _];
    intros Hg k st res Hm Hst.
  - exists st. split; assumption.
  - simpl in Hm. destruct (idx st =? 0)%nat; [|discriminate].
    exists st. split; assumption.
  - apply step_inv in Hm. destruct Hm as (a & s' & _ & _ & Hk).
    eexists. split; [|exact Hk]. exact Hst.
  - apply step_inv in Hm. destruct Hm as (a & s' & _ & _ & Hk).
    eexists. split; [|exact Hk]. exact Hst.
  - apply step_inv in Hm. destruct Hm as (a & s' & _ & _ & Hk).
    eexists. split; [|exact Hk]. exact Hst.
  - destruct Hg as [Hg1 Hg2]. simpl in Hm.
    destruct (IH1 Hg1 _ _ _ Hm Hst) as (st1 & Hst1 & Hk1).
    exact (IH2 Hg2 _ _ _ Hk1 Hst1).
  - destruct Hg as [Hg1 Hg2]. simpl in Hm.
    destruct (m r1 k st) as [r0|] eqn:H1.
    + injection Hm as ->. exact (IH1 Hg1 _ _ _ H1 Hst).
    + exact (IH2 Hg2 _ _ _ Hm Hst).
  - exact (loop_inv (fun s => class_groups items (groups s)) (m r1) (IH1 Hg)
             _ _ _ _ Hm Hst).
  - simpl in Hm. destruct (IH1 Hg _ _ _ Hm Hst) as (st1 & Hst1 & Hk1).
    exact (loop_inv (fun s => class_groups items (groups s)) (m r1) (IH1 Hg)
             _ _ _ _ Hk1 Hst1).
  - simpl in Hg. subst r1.
    change (m (Plus (Cls items)) (fun st' => k (set_group name st st')) st = Some res)
      in Hm.
    apply class_consume in Hm. destruct Hm as (d & s' & Hd & Hr & Hk).
    eexists. split; [|exact Hk]. unfold set_group. simpl.
    constructor; [|exact Hst]. simpl.
    replace (idx st + String.length d - idx st)%nat with (String.length d) by lia.
    rewrite Hr, take_app. exact Hd.
Qed.

Lemma search_class_groups (items : list item) (r : regex) (text : string) (mt : Match) :
  class_grouped items r -> search r text = Some mt ->
  class_groups items (m_groups mt).
Proof.
  intros Hg H. apply search_from_at in H. destruct H as (p & s & H).
  unfold match_at in H. destruct (m r Some _) as [st|] eqn:Hm; [|discriminate].
  injection H as <-. simpl.
  destruct (m_class_groups items r Hg _ _ _ Hm) as (st' & Hst' & Heq).
  - constructor.
  - injection Heq as ->. exact Hst'.
Qed.

(* ================================================================== *)
(** * Short descriptions without digits, brackets or parentheses       *)
(* ================================================================== *)

Lemma digit_class_needs_digit : needs is_digit (Cls [IDigit]).
Proof. simpl. intros c H. unfold in_class in H. simpl in H.
  rewrite orb_false_r in H. exact H. Qed.

Lemma episode_patterns_need_digit :
  needs is_digit c4_style_re /\ needs is_digit bbc_style_re /\
  needs is_digit original_air_date_re.
Proof.
  pose proof digit_class_needs_digit as H. simpl in H.
  split; [|split]; simpl.
  - right. right. right. left. exact H.
  - right. left. exact H.
  - left. left. exact H.
Qed.

(** A short description without any decimal digit.  Neither pattern of
    the episode parser matches it, nor the air-date pattern: parseSEP
    answers (False, "..") and the annotator returns the programme as it
    received it, whatever its categories. *)
Theorem no_digit_no_episode_num (programme : Element) (event : Event) :
  has_char is_digit (shortdesc event) = false ->
  parseSEP (shortdesc event) = inr (false, "..") /\
  addSeriesInfo2Programme programme event = inr programme.
Proof.
  intros Hs. destruct episode_patterns_need_digit as (H4 & Hb & Ha).
  assert (Hp : parseSEP (shortdesc event) = inr (false, "..")).
  { unfold parseSEP, search.
    rewrite (search_needs is_digit c4_style_re _ H4 Hs 0).
    rewrite (search_needs is_digit bbc_style_re _ Hb Hs 0). reflexivity. }
  split; [exact Hp|].
  unfold addSeriesInfo2Programme. rewrite Hp. unfold search.
  rewrite (search_needs is_digit original_air_date_re _ Ha Hs 0).
  simpl. destruct (no_episode_num _); reflexivity.
Qed.

Lemma no_digit_no_episode_num_witness :
  let event := MkEvent 0 30 "Show" "[Drama] A quiet evening (repeat)" "" "" in
  let programme := addCategories2Programme empty_programme event in
  has_char is_digit (shortdesc event) = false /\
  parseSEP (shortdesc event) = inr (false, "..") /\
  addSeriesInfo2Programme programme event = inr programme.
Proof.
  intros event programme.
  assert (H : has_char is_digit (shortdesc event) = false) by reflexivity.
  split; [exact H|]. exact (no_digit_no_episode_num programme event H).
Defined.

Lemma step_reject (p : ascii -> bool) (k : cont) (st : mstate) (c : ascii)
  (s' : string) :
  rest st = String c s' -> p c = false -> step p k st = None.
Proof. unfold step. intros -> ->. reflexivity. Qed.

Lemma sub_first_step_plain (s : string) :
  prefix "[" s = false -> sub subtitle_first_step_re "" s = s.
Proof.
  unfold sub, subtitle_first_step_re. simpl seq.
  destruct s as [|c s]; [reflexivity|]. intros Hp.
  assert (Hc : ("[" =? c)%char = false).
  { change (prefix "[" (String c s))
      with (if ascii_dec "[" c then prefix "" s else false) in Hp.
    destruct (ascii_dec "[" c) as [E|Hne].
    - destruct s; discriminate Hp.
    - apply Ascii.eqb_neq. exact Hne. }
  cbn [sub_from]. unfold match_at at 1. cbn [m]. simpl Nat.eqb. cbv iota.
  rewrite (step_reject (Ascii.eqb "[") _ (MState 0 (String c s) []) c s eq_refl Hc).
  f_equal. apply sub_anchored_later.
Qed.

Lemma sub_subtitle_plain (s : string) :
  has_char (Ascii.eqb "(") s = false -> sub subtitle_re "" s = s.
Proof.
  intros H. unfold sub. apply (sub_needs (Ascii.eqb "(")); [|exact H].
  simpl. right. left. reflexivity.
Qed.

(** A plain short description as sub-title.  When the long description is
    not empty and the short description is not empty, does not open with
    a bracket and holds no opening parenthesis, the two substitutions
    leave it as it is, and the programme has one sub-title, whose text is
    the sanitized short description. *)
Theorem plain_short_description_is_the_subtitle
  (h : Host.t) (service_program tzoffset : string) (event : Event) :
  (longdesc event =? "") = false ->
  (shortdesc event =? "") = false ->
  prefix "[" (shortdesc event) = false ->
  has_char (Ascii.eqb "(") (shortdesc event) = false ->
  stripped_subtitle event = shortdesc event /\
  exists programme,
    programme_of h service_program tzoffset event = inr programme /\
    map text (findall "sub-title" programme) = [Some (unescape h (shortdesc event))].
Proof.
  intros Hlong Hshort Hbracket Hparen.
  assert (Hs : stripped_subtitle event = shortdesc event).
  { unfold stripped_subtitle.
    rewrite (sub_first_step_plain _ Hbracket). apply sub_subtitle_plain, Hparen. }
  split; [exact Hs|].
  unfold programme_of. cbv zeta. fold (stripped_subtitle event).
  rewrite length_positive, Hs, Hlong, Hshort. simpl negb.
  destruct (Py.contains "New: " (unescape h (title event)));
    cbv beta iota; annotate; reflexivity.
Qed.

Lemma plain_short_description_is_the_subtitle_witness :
  let event := MkEvent 0 30 "Show" "A quiet evening" "Two friends talk." "" in
  (longdesc event =? "") = false /\
  (shortdesc event =? "") = false /\
  prefix "[" (shortdesc event) = false /\
  has_char (Ascii.eqb "(") (shortdesc event) = false /\
  stripped_subtitle event = shortdesc event /\
  exists programme,
    programme_of Host.utc "1" "+0000" event = inr programme /\
    map text (findall "sub-title" programme) =
      [Some (unescape Host.utc (shortdesc event))].
Proof.
  intros event.
  assert (H1 : (longdesc event =? "") = false) by reflexivity.
  assert (H2 : (shortdesc event =? "") = false) by reflexivity.
  assert (H3 : prefix "[" (shortdesc event) = false) by reflexivity.
  assert (H4 : has_char (Ascii.eqb "(") (shortdesc event) = false) by reflexivity.
  repeat (split; [assumption|]).
  exact (plain_short_description_is_the_subtitle Host.utc "1" "+0000" event
           H1 H2 H3 H4).
Defined.

(* ================================================================== *)
(** * The groups that always take part                                 *)
(* ================================================================== *)

(** Pass over the first part of a sequence in a successful match. *)
Ltac pass_over H :=
  match type of H with
  | m (Seq ?a ?b) ?k ?st = ?res =>
      change (m a (m b k) st = res) in H;
      apply m_calls in H;
      let st' := fresh "st" in destruct H as (st' & H)
  end.

(** Enter a sequence that opens with a group and keep the group. *)
Ltac close_group H name :=
  match type of H with
  | m (Seq (Grp name ?a) ?b) ?k ?st = ?res =>
      change (m a (fun st' => m b k (set_group name st st')) st = res) in H;
      apply m_calls in H;
      let st' := fresh "st" in
      destruct H as (st' & H);
      apply (m_keeps_group name) in H;
      [ destruct H as (? & H & ?)
      | unfold set_group; simpl; discriminate ]
  end.

Lemma match_sets_group (r : regex) (name : string) :
  (forall st res, m r Some st = Some res -> lookup name (groups res) <> None) ->
  forall text mt, search r text = Some mt -> group mt name <> None.
Proof.
  intros Hr text mt H. apply search_from_at in H. destruct H as (p & s & H).
  unfold match_at in H. destruct (m r Some _) as [st|] eqn:Hm; [|discriminate].
  injection H as <-. unfold group. simpl. exact (Hr _ _ Hm).
Qed.



Lemma categories_sets_C1 (text : string) (mt : Match) :
  search categories_re text = Some mt -> group mt "C1" <> None.
Proof.
  apply match_sets_group. intros st res H.
  unfold categories_re in H. cbn [seq] in H.
  pass_over H. pass_over H. close_group H "C1".
  congruence.
Qed.







Lemma lookup_class_run (items : list item) (name : string)
  (gs : list (string * string)) (v : string) :
  class_groups items gs -> lookup name gs = Some v -> class_run items v = true.
Proof.
  induction 1 as [|[n w] gs Hw _ IH]; simpl; [discriminate|].
  destruct (n =? name).
  - intros Heq. injection Heq as <-. exact Hw.
  - exact IH.
Qed.

Lemma categories_class_grouped : class_grouped [IWord; ISpace] categories_re.
Proof. simpl. repeat split. Qed.

Lemma class_run_truthy (items : list item) (v : string) :
  class_run items v = true -> Py.truthy_str v = true.
Proof. unfold class_run. intros H. apply andb_true_iff in H. apply H. Qed.

(** The characters of a category.  Every category taken from a short
    description is a non-empty text made of word characters and white
    space only; it holds no bracket and no dot. *)
Theorem categories_are_words_and_spaces (text c : string) :
  In c (extract_categories text) ->
  c <> "" /\
  all_chars (fun a => is_word a || is_space a) c = true /\
  has_char (fun a => (a =? "[")%char || (a =? "]")%char || (a =? ".")%char) c = false.
Proof.
  unfold extract_categories.
  destruct (search categories_re text) as [mt|] eqn:H; [|intros []].
  pose proof (search_class_groups _ _ _ _ categories_class_grouped H) as Hg.
  unfold named_captures, groupdict. rewrite (search_names _ _ _ H). simpl.
  rewrite app_nil_r. intros Hin.
  assert (Hrun : class_run [IWord; ISpace] c = true).
  { apply in_app_or in Hin. unfold group in Hin.
    destruct Hin as [Hin|Hin];
      [destruct (lookup "C1" (m_groups mt)) as [v|] eqn:Hl
      |destruct (lookup "C2" (m_groups mt)) as [v|] eqn:Hl];
      simpl in Hin; try contradiction;
      (destruct (Py.truthy_str v); [|contradiction]);
      destruct Hin as [<-|[]]; eapply lookup_class_run; eassumption. }
  unfold class_run in Hrun. apply andb_true_iff in Hrun. destruct Hrun as [Hne Hall].
  split; [intros ->; discriminate Hne|].
  clear - Hall. induction c as [|a c IH]; [split; reflexivity|].
  simpl in Hall. apply andb_true_iff in Hall. destruct Hall as [Ha Hc].
  destruct (IH Hc) as [IH1 IH2]. unfold in_class in Ha. simpl in Ha.
  rewrite orb_false_r in Ha. simpl. rewrite Ha, IH1, IH2. split; [reflexivity|].
  rewrite orb_false_r.
  destruct (Ascii.eqb_spec a "[") as [->|_]; [discriminate Ha|].
  destruct (Ascii.eqb_spec a "]") as [->|_]; [discriminate Ha|].
  destruct (Ascii.eqb_spec a ".") as [->|_]; [discriminate Ha|]. reflexivity.
Qed.

Lemma categories_are_words_and_spaces_witness :
  In "Crime" (extract_categories "[Drama.Crime] rest of text") /\
  "Crime" <> "" /\
  all_chars (fun a => is_word a || is_space a) "Crime" = true /\
  has_char (fun a => (a =? "[")%char || (a =? "]")%char || (a =? ".")%char) "Crime"
    = false.
Proof.
  assert (H : In "Crime" (extract_categories "[Drama.Crime] rest of text"))
    by (vm_compute; auto).
  split; [exact H|].
  exact (categories_are_words_and_spaces "[Drama.Crime] rest of text" "Crime" H).
Defined.

(** One category at least.  The pattern of the categories is found in a
    short description exactly when a category is taken from it: a match
    always gives the first category, and at most one more. *)
Theorem categories_match_gives_first_category (text : string) :
  (search categories_re text = None <-> extract_categories text = []) /\
  (forall mt, search categories_re text = Some mt ->
     exists c1, group mt "C1" = Some c1 /\
                extract_categories text = c1 :: nonempty (group mt "C2")).
Proof.
  assert (H2 : forall mt, search categories_re text = Some mt ->
             exists c1, group mt "C1" = Some c1 /\
                        extract_categories text = c1 :: nonempty (group mt "C2")).
  { intros mt H. unfold extract_categories. rewrite H.
    unfold named_captures, groupdict. rewrite (search_names _ _ _ H). simpl.
    rewrite app_nil_r.
    pose proof (categories_sets_C1 _ _ H) as HC1.
    destruct (group mt "C1") as [c1|] eqn:Hc1; [|congruence].
    exists c1. split; [reflexivity|]. simpl.
    pose proof (search_class_groups _ _ _ _ categories_class_grouped H) as Hg.
    rewrite (class_run_truthy _ _ (lookup_class_run _ _ _ _ Hg Hc1)). reflexivity. }
  split; [|exact H2]. split.
  - intros H. unfold extract_categories. rewrite H. reflexivity.
  - intros H. destruct (search categories_re text) as [mt|] eqn:Hs; [|reflexivity].
    destruct (H2 mt eq_refl) as (c1 & _ & Heq). rewrite Heq in H. discriminate H.
Qed.

Lemma categories_match_gives_first_category_witness :
  exists mt,
    search categories_re "[Drama] rest" = Some mt /\
    exists c1, group mt "C1" = Some c1 /\
               extract_categories "[Drama] rest" = c1 :: nonempty (group mt "C2").
Proof.
  eexists.
  assert (H : search categories_re "[Drama] rest" = Some _) by (vm_compute; reflexivity).
  split; [exact H|].
  exact (proj2 (categories_match_gives_first_category "[Drama] rest") _ H).
Defined.

(* ================================================================== *)
(** * unescape                                                         *)
(* ================================================================== *)

Lemma keep_all_chars (p : ascii -> bool) (s : string) :
  all_chars p (keep p s) = true.
Proof.
  induction s as [|c s IH]; simpl; [reflexivity|].
  destruct (p c) eqn:Hp; simpl; [rewrite Hp|]; exact IH.
Qed.

Lemma keep_all (p : ascii -> bool) (s : string) :
  all_chars p s = true -> keep p s = s.
Proof.
  induction s as [|c s IH]; simpl; [reflexivity|].
  intros H. apply andb_true_iff in H. destruct H as [Hc Hs].
  rewrite Hc, (IH Hs). reflexivity.
Qed.

(** unescape.  On a host with the html module the result holds valid XML
    characters only, whatever the text and whatever the entities stand
    for; and on every host a text that holds no ampersand and valid
    characters only comes back as it is. *)
Theorem unescape_leaves_valid_characters (h : Host.t) (text : string) :
  (Host.html_available h = true ->
   all_chars valid_xml_char_ordinal (unescape h text) = true) /\
  (Py.contains "&" text = false ->
   all_chars valid_xml_char_ordinal text = true ->
   unescape h text = text).
Proof.
  unfold unescape. split.
  - intros ->. apply keep_all_chars.
  - intros Hamp Hall. destruct (Host.html_available h); [|reflexivity].
    rewrite (html_unescape_without_ampersand h text Hamp). apply keep_all. exact Hall.
Qed.

Lemma unescape_leaves_valid_characters_witness :
  let h := Host.Make true (fun _ => String (ascii_of_nat 7) "Tom & Jerry")
                     (fun _ => 0%Z) in
  Host.html_available h = true /\
  all_chars valid_xml_char_ordinal (unescape h "Tom &amp; Jerry") = true /\
  Py.contains "&" "Plot" = false /\
  all_chars valid_xml_char_ordinal "Plot" = true /\
  unescape h "Plot" = "Plot".
Proof.
  intros h.
  assert (H1 : Host.html_available h = true) by reflexivity.
  assert (H2 : Py.contains "&" "Plot" = false) by reflexivity.
  assert (H3 : all_chars valid_xml_char_ordinal "Plot" = true) by reflexivity.
  split; [exact H1|].
  split; [exact (proj1 (unescape_leaves_valid_characters h "Tom &amp; Jerry") H1)|].
  split; [exact H2|]. split; [exact H3|].
  exact (proj2 (unescape_leaves_valid_characters h "Plot") H2 H3).
Defined.

(* ================================================================== *)
(** * The credits of a movie                                           *)
(* ================================================================== *)



Lemma length_split (sep : ascii) (s : string) :
  forall n, List.length (Py.split sep (Some n) s) = S (Nat.min n (count_char sep s)).
Proof.
  induction s as [|c s IH]; intros n; simpl.
  - rewrite Nat.min_0_r. reflexivity.
  - destruct (c =? sep)%char eqn:Hc; simpl.
    + destruct n as [|n]; simpl.
      * pose proof (IH 0%nat) as H0. simpl in H0.
        destruct (Py.split sep (Some 0%nat) s); [discriminate H0|exact H0].
      * rewrite IH. reflexivity.
    + pose proof (IH n) as Hn.
      destruct (Py.split sep (Some n) s); [discriminate Hn|exact Hn].
Qed.



(** addMovieCredits, the short long description.  A long description with
    fewer than two line breaks gives no credits, whatever the category:
    the programme comes back as it was, unless its first category has no
    text. *)
Theorem addMovieCredits_needs_two_line_breaks
  (programme : Element) (event : Event) :
  (count_char Py.newline (longdesc event) < 2)%nat ->
  (forall c, find "category" programme = Some c -> text c <> None) ->
  addMovieCredits programme event = inr programme.
Proof.
  intros Hn Ht. destruct (find "category" programme) as [c|] eqn:Hf.
  - specialize (Ht c eq_refl). destruct (text c) as [txt|] eqn:Hc; [|congruence].
    rewrite (addMovieCredits_with_category _ _ _ _ Hf Hc).
    rewrite length_split.
    replace (2 <? S (Nat.min 2 (count_char Py.newline (longdesc event))))%nat
      with false.
    + rewrite andb_false_r. reflexivity.
    + symmetry. apply Nat.ltb_ge. lia.
  - apply addMovieCredits_without_category. exact Hf.
Qed.

Lemma addMovieCredits_needs_two_line_breaks_witness :
  let event := MkEvent 0 90 "Film" "[Movie] A film" ("Plot" ++ nl ++ "Dir") "" in
  let programme := addCategories2Programme empty_programme event in
  (count_char Py.newline (longdesc event) < 2)%nat /\
  (forall c, find "category" programme = Some c -> text c <> None) /\
  addMovieCredits programme event = inr programme.
Proof.
  intros event programme.
  assert (Hn : (count_char Py.newline (longdesc event) < 2)%nat) by (simpl; lia).
  assert (Ht : forall c, find "category" programme = Some c -> text c <> None).
  { intros c Hc. injection Hc as <-. discriminate. }
  split; [exact Hn|]. split; [exact Ht|].
  exact (addMovieCredits_needs_two_line_breaks programme event Hn Ht).
Defined.

(* ================================================================== *)
(** * getOffset on the quarters of an hour                             *)
(* ================================================================== *)

Lemma in_z_range (lo : Z) (n : nat) (z : Z) :
  (lo <= z < lo + Z.of_nat n)%Z -> In z (z_range lo n).
Proof.
  intros H. unfold z_range. apply in_map_iff.
  exists (Z.to_nat (z - lo)). split; [lia|]. apply in_seq. lia.
Qed.

Lemma quarters_of_a_day :
  forallb (fun q => Bool.eqb (tzo_of_offset (900 * q) =? hhmm_of_offset (900 * q))
                             (rendered_as_hours_and_minutes q))
          (z_range (-95) 191) = true.
Proof. vm_compute. reflexivity. Qed.

(** getOffset, every offset of less than a day that is a whole number of
    quarters of an hour.  The text is the offset as sign, hours and
    minutes exactly when the offset is within a quarter of a whole hour or
    is the half hour after an even hour; the three quarters, and the half
    hour after an odd hour, are rendered otherwise. *)
Theorem getOffset_right_on_these_quarters (h : Host.t) (now quarters : Z) :
  (-96 < quarters < 96)%Z ->
  Host.utcoffset h now = (900 * quarters)%Z ->
  (getOffset h now = hhmm_of_offset (900 * quarters) <->
   rendered_as_hours_and_minutes quarters = true).
Proof.
  intros Hq Hoff. unfold getOffset. rewrite Hoff.
  pose proof quarters_of_a_day as Hall. rewrite forallb_forall in Hall.
  specialize (Hall quarters (in_z_range (-95) 191 quarters ltac:(lia))).
  apply eqb_prop in Hall. rewrite <- Hall. apply iff_sym, String.eqb_eq.
Qed.

Lemma getOffset_right_on_these_quarters_witness :
  let kabul := Host.Make true (fun s => s) (fun _ => 16200%Z) in
  let delhi := Host.Make true (fun s => s) (fun _ => 19800%Z) in
  (getOffset kabul 0 = hhmm_of_offset (900 * 18) <->
   rendered_as_hours_and_minutes 18 = true) /\
  (getOffset delhi 0 = hhmm_of_offset (900 * 22) <->
   rendered_as_hours_and_minutes 22 = true) /\
  rendered_as_hours_and_minutes 18 = true /\
  rendered_as_hours_and_minutes 22 = false.
Proof.
  intros kabul delhi.
  split; [apply (getOffset_right_on_these_quarters kabul 0 18); [lia|reflexivity]|].
  split; [apply (getOffset_right_on_these_quarters delhi 0 22); [lia|reflexivity]|].
  split; reflexivity.
Defined.

(* ================================================================== *)
(** * The requests of a run                                            *)
(* ================================================================== *)

Lemma for_each_ext {A S : Type} (body body' : S -> A -> Py.result S) (l : list A) :
  (forall s a, body s a = body' s a) ->
  forall s, for_each body l s = for_each body' l s.
Proof.
  intros Hb. induction l as [|a l IH]; intros s; simpl; [reflexivity|].
  rewrite Hb. destruct (body' s a) as [e|s1]; simpl; [reflexivity|]. apply IH.
Qed.

(** main asks the server nothing outside the API root.  Two servers that
    give the same answers to the three kinds of request under the root
    that getAPIRoot forms, whatever they answer elsewhere, lead to the
    same outcome of the run: the same payload or the same exception. *)
Theorem main_asks_under_the_API_root
  (h : Host.t) (server server' : Server) (now_offset now_date : Z)
  (tostring : Element -> string) (bouquet username password : option string)
  (host : string) (port : Z) (version : bool) :
  same_answers (getAPIRoot username password host port) server server' ->
  main h server now_offset now_date tostring bouquet username password host port
       version =
  main h server' now_offset now_date tostring bouquet username password host port
       version.
Proof.
  intros (Hb & Hs & He). unfold main. destruct version; [reflexivity|].
  set (root := getAPIRoot username password host port) in *.
  assert (E1 : getBouquets server bouquet root = getBouquets server' bouquet root).
  { unfold getBouquets. rewrite Hb. reflexivity. }
  assert (E2 : forall bouquets,
             getBouquetsServices server bouquets root =
             getBouquetsServices server' bouquets root).
  { intros bouquets. unfold getBouquetsServices. apply for_each_ext.
    intros s a. cbv zeta. rewrite Hs. reflexivity. }
  assert (E3 : forall services,
             getEPGs server services root = getEPGs server' services root).
  { intros services. unfold getEPGs. apply for_each_ext. intros s a.
    apply for_each_ext. intros epg service. unfold getEPG.
    destruct (pos service) as [position|]; [|reflexivity].
    destruct (Py.truthy_int position); [|reflexivity].
    cbv zeta. rewrite He. reflexivity. }
  rewrite E1. destruct (getBouquets server' bouquet root) as [e|bouquets];
    [reflexivity|]. cbn [Py.bind].
  rewrite E2. destruct (getBouquetsServices server' bouquets root) as [e|services];
    [reflexivity|]. cbn [Py.bind].
  rewrite E3. reflexivity.
Qed.

Lemma main_asks_under_the_API_root_witness :
  let answer := fun _ : string => inr [("1:7:1:A", "Favourites")] in
  let refuse := fun url : string =>
                  if prefix "http://box:8080/" url then answer url
                  else inl (Py.KeyError "bouquets") in
  let server := MkServer answer (fun _ => inr []) (fun _ => inr []) in
  let server' := MkServer refuse (fun _ => inr []) (fun _ => inr []) in
  same_answers (getAPIRoot None None "box" 8080) server server' /\
  main Host.utc server 0 0 tag None None None "box" 8080 false =
  main Host.utc server' 0 0 tag None None None "box" 8080 false.
Proof.
  intros answer refuse server server'.
  assert (H : same_answers (getAPIRoot None None "box" 8080) server server').
  { split; [reflexivity|]. split; intros ref; reflexivity. }
  split; [exact H|].
  exact (main_asks_under_the_API_root Host.utc server server' 0 0 tag None None None
           "box" 8080 false H).
Defined.

(* ================================================================== *)
(** * The children of a programme, in order                            *)
(* ================================================================== *)

(** addEvents2XML, the programme of one event.  Its children come in this
    order: the length in minutes, the desc, the sub-title when there is
    one, the empty new element when the title holds the marker, the
    title, and after them the annotations only, which are category,
    episode-num and credits elements. *)
Theorem programme_children_in_order
  (h : Host.t) (service_program tzoffset : string) (event : Event) :
  exists programme annotations,
    programme_of h service_program tzoffset event = inr programme /\
    map tag (children programme) = (leading_tags h event ++ map tag annotations)%list /\
    Forall is_annotation annotations /\
    nth_error (children programme) 0 =
      Some (leaf "length" [("units", "minutes")] (Py.str_of_int (duration event))).
Proof.
  unfold programme_of, leading_tags. cbv zeta. fold (stripped_subtitle event).
  rewrite length_positive.
  destruct (longdesc event =? ""); [|destruct (stripped_subtitle event =? "")];
    destruct (Py.contains "New: " (unescape h (title event)));
    cbv beta iota;
    match goal with
    | |- context [addSeriesInfo2Programme (addCategories2Programme ?P ?ev) ?ev] =>
        destruct (annotate_appends P ev) as (l & -> & Hl);
        [ rewrite ?children_SubElement; simpl children; simpl app;
          repeat constructor; intros H; discriminate H
        | eexists; exists l; split; [reflexivity|];
          split; [|split; [exact Hl|reflexivity]];
          simpl; rewrite ?map_app; reflexivity ]
    end.
Qed.

(* ================================================================== *)
(** * The original air date                                            *)
(* ================================================================== *)






